(** * Isometry library: vectors, 3x3 matrices and rigid transforms

    A shallow embedding of the C++ classes [ekumen::math::Vector3],
    [ekumen::math::Matrix3] and [ekumen::math::Isometry].

    - A C++ [double] is a primitive binary64 float of Rocq ([PrimFloat.float]):
      [+], [-], [*], [/], [sqrt], [fabs] and the comparisons are the IEEE-754
      operations in round-to-nearest-even, NaN and the infinities included.
    - A function that can [throw] returns a [result]; the exception carries the
      class that is thrown and its message.
    - A non-const member function takes the object and returns its new state.
    - [std::cos], [std::sin] and [std::pow] belong to the C library, not to this
      repository: they are the variables of the section [Isometry.Libm]. *)

From Stdlib Require Import ZArith Bool List String Lia.
From Stdlib Require Import Floats.
Import ListNotations.

Local Open Scope float_scope.

(** ** Exceptions *)

Inductive exception : Type :=
| out_of_range (what : string)
| runtime_error (what : string).

Inductive result (A : Type) : Type :=
| Ok (a : A)
| Throw (e : exception).

Arguments Ok {A} a.
Arguments Throw {A} e.

Definition bind {A B : Type} (r : result A) (k : A -> result B) : result B :=
  match r with
  | Ok a => k a
  | Throw e => Throw e
  end.

Notation "x <- r ;; k" := (bind r (fun x => k))
  (at level 61, r at next level, right associativity).

Definition is_out_of_range {A : Type} (r : result A) : bool :=
  match r with
  | Throw (out_of_range _) => true
  | _ => false
  end.

Definition is_runtime_error {A : Type} (r : result A) : bool :=
  match r with
  | Throw (runtime_error _) => true
  | _ => false
  end.

(** [std::numeric_limits<double>::epsilon()], that is 2^-52. *)
Definition epsilon : float := 0x1p-52.

(** ** Vector3 (vector3.cpp) *)

Module Vector3.

Record t : Type := mk { x : float; y : float; z : float }.

(** What a [double&] into a vector refers to: one of [x_], [y_], [z_]. *)
Inductive field : Type := x_ | y_ | z_.

Definition get (v : t) (f : field) : float :=
  match f with
  | x_ => x v
  | y_ => y v
  | z_ => z v
  end.

Definition set (v : t) (f : field) (d : float) : t :=
  match f with
  | x_ => mk d (y v) (z v)
  | y_ => mk (x v) d (z v)
  | z_ => mk (x v) (y v) d
  end.

(** [Vector3::Vector3()] *)
Definition default : t := mk 0 0 0.

Definition kZero : t := mk 0 0 0.
Definition kUnitX : t := mk 1 0 0.
Definition kUnitY : t := mk 0 1 0.
Definition kUnitZ : t := mk 0 0 1.

(** The compound assignments; [self] is the object they are called on and
    the result is its new state. *)
Definition add_assign (self v : t) : t :=
  mk (x self + x v) (y self + y v) (z self + z v).

Definition sub_assign (self v : t) : t :=
  mk (x self - x v) (y self - y v) (z self - z v).

Definition mul_assign (self v : t) : t :=
  mk (x self * x v) (y self * y v) (z self * z v).

Definition mul_assign_scalar (self : t) (scalar : float) : t :=
  mk (x self * scalar) (y self * scalar) (z self * scalar).

Definition div_assign (self v : t) : t :=
  mk (x self / x v) (y self / y v) (z self / z v).

Definition div_assign_scalar (self : t) (scalar : float) : t :=
  mk (x self / scalar) (y self / scalar) (z self / scalar).

(** The binary operators copy [*this] into [aux] and assign to the copy. *)
Definition add (self v : t) : t := let aux := self in add_assign aux v.
Definition sub (self v : t) : t := let aux := self in sub_assign aux v.
Definition mul (self v : t) : t := let aux := self in mul_assign aux v.
Definition mul_scalar (self : t) (scalar : float) : t :=
  let aux := self in mul_assign_scalar aux scalar.
Definition div (self v : t) : t := let aux := self in div_assign aux v.
Definition div_scalar (self : t) (scalar : float) : t :=
  let aux := self in div_assign_scalar aux scalar.

(** [operator*(double scalar, const Vector3& vector)] *)
Definition scalar_mul (scalar : float) (v : t) : t := mul_scalar v scalar.

(** [Vector3::operator==] *)
Definition eqb (self v : t) : bool :=
  (abs (x self - x v) <=? epsilon) &&
  (abs (y self - y v) <=? epsilon) &&
  (abs (z self - z v) <=? epsilon).

Definition neqb (self v : t) : bool := negb (eqb self v).

Definition index_error : exception :=
  out_of_range "Vector3 has only 3 elements".

(** [double Vector3::operator[](const int index) const] *)
Definition at_ (self : t) (index : Z) : result float :=
  match index with
  | 0%Z => Ok (x self)
  | 1%Z => Ok (y self)
  | 2%Z => Ok (z self)
  | _ => Throw index_error
  end.

(** [double& Vector3::operator[](const int index)]: the reference that is
    returned and the state of the vector after the call. *)
Definition at_ref (self : t) (index : Z) : result (field * t) :=
  match index with
  | 0%Z => Ok (x_, self)
  | 1%Z => Ok (y_, self)
  | 2%Z => Ok (z_, self)
  | _ => Throw index_error
  end.

Definition dot (self v : t) : float :=
  x self * x v + y self * y v + z self * z v.

Definition cross (self v : t) : t :=
  mk (y self * z v - z self * y v)
     (z self * x v - x self * z v)
     (x self * y v - y self * x v).

Definition norm (self : t) : float := sqrt (dot self self).

(** No component is a NaN or an infinity. *)
Definition finite (v : t) : bool :=
  is_finite (x v) && is_finite (y v) && is_finite (z v).

End Vector3.

Abbreviation Vector3 := Vector3.t.

(** ** Matrix3 (matrix3.cpp) *)

Module Matrix3.

Record t : Type := mk_rows { row_0_ : Vector3; row_1_ : Vector3; row_2_ : Vector3 }.

(** What a [Vector3&] into a matrix refers to. *)
Inductive field : Type := row_0 | row_1 | row_2.

(** [Matrix3::Matrix3()] *)
Definition default : t :=
  mk_rows (Vector3.mk 0 0 0) (Vector3.mk 0 0 0) (Vector3.mk 0 0 0).

(** [Matrix3::Matrix3(a1, a2, a3, b1, b2, b3, c1, c2, c3)] *)
Definition mk (a1 a2 a3 b1 b2 b3 c1 c2 c3 : float) : t :=
  mk_rows (Vector3.mk a1 a2 a3) (Vector3.mk b1 b2 b3) (Vector3.mk c1 c2 c3).

Definition kIdentity : t := mk 1 0 0 0 1 0 0 0 1.
Definition kOnes : t := mk 1 1 1 1 1 1 1 1 1.
Definition kZero : t := mk 0 0 0 0 0 0 0 0 0.

Definition index_error : exception :=
  out_of_range "Matrix3 has only 3 elements".

(** [Vector3 Matrix3::operator[](const int index) const] *)
Definition at_ (self : t) (index : Z) : result Vector3 :=
  match index with
  | 0%Z => Ok (row_0_ self)
  | 1%Z => Ok (row_1_ self)
  | 2%Z => Ok (row_2_ self)
  | _ => Throw index_error
  end.

(** [Vector3& Matrix3::operator[](const int index)]: the reference that is
    returned and the state of the matrix after the call. *)
Definition at_ref (self : t) (index : Z) : result (field * t) :=
  match index with
  | 0%Z => Ok (row_0, self)
  | 1%Z => Ok (row_1, self)
  | 2%Z => Ok (row_2, self)
  | _ => Throw index_error
  end.

(** [Matrix3::operator==]; [&&] evaluates its right operand only when the
    left one is true. *)
Definition eqb (self matrix : t) : result bool :=
  m0 <- at_ matrix 0 ;;
  if Vector3.eqb (row_0_ self) m0 then
    m1 <- at_ matrix 1 ;;
    if Vector3.eqb (row_1_ self) m1 then
      m2 <- at_ matrix 2 ;;
      Ok (Vector3.eqb (row_2_ self) m2)
    else Ok false
  else Ok false.

Definition neqb (self matrix : t) : result bool :=
  b <- eqb self matrix ;; Ok (negb b).

(** The compound assignments work row by row: [row_i_ op= matrix[i]]. *)
Definition rowwise_assign (op : Vector3 -> Vector3 -> Vector3)
    (self matrix : t) : result t :=
  m0 <- at_ matrix 0 ;;
  let r0 := op (row_0_ self) m0 in
  m1 <- at_ matrix 1 ;;
  let r1 := op (row_1_ self) m1 in
  m2 <- at_ matrix 2 ;;
  let r2 := op (row_2_ self) m2 in
  Ok (mk_rows r0 r1 r2).

Definition add_assign : t -> t -> result t := rowwise_assign Vector3.add_assign.
Definition sub_assign : t -> t -> result t := rowwise_assign Vector3.sub_assign.
Definition mul_assign : t -> t -> result t := rowwise_assign Vector3.mul_assign.
Definition div_assign : t -> t -> result t := rowwise_assign Vector3.div_assign.

Definition mul_assign_scalar (self : t) (scalar : float) : t :=
  mk_rows (Vector3.mul_assign_scalar (row_0_ self) scalar)
          (Vector3.mul_assign_scalar (row_1_ self) scalar)
          (Vector3.mul_assign_scalar (row_2_ self) scalar).

Definition div_assign_scalar (self : t) (scalar : float) : t :=
  mk_rows (Vector3.div_assign_scalar (row_0_ self) scalar)
          (Vector3.div_assign_scalar (row_1_ self) scalar)
          (Vector3.div_assign_scalar (row_2_ self) scalar).

(** The binary operators copy [*this] into [aux] and assign to the copy. *)
Definition add (self matrix : t) : result t := let aux := self in add_assign aux matrix.
Definition sub (self matrix : t) : result t := let aux := self in sub_assign aux matrix.

(** [Matrix3 Matrix3::operator*(const Matrix3& matrix) const] *)
Definition mul (self matrix : t) : result t := let aux := self in mul_assign aux matrix.

Definition div (self matrix : t) : result t := let aux := self in div_assign aux matrix.

(** [Vector3 Matrix3::operator*(const Vector3& vector) const] *)
Definition mul_vector (self : t) (vector : Vector3) : Vector3 :=
  Vector3.mk (Vector3.dot (row_0_ self) vector)
             (Vector3.dot (row_1_ self) vector)
             (Vector3.dot (row_2_ self) vector).

Definition mul_scalar (self : t) (scalar : float) : t :=
  let aux := self in mul_assign_scalar aux scalar.

(** [operator*(double scalar, const Matrix3& matrix)] *)
Definition scalar_mul (scalar : float) (matrix : t) : t := mul_scalar matrix scalar.

Definition div_scalar (self : t) (scalar : float) : t :=
  let aux := self in div_assign_scalar aux scalar.

(** [Matrix3::det]; every [row_i_[j]] goes through [Vector3::operator[]]. *)
Definition det (self : t) : result float :=
  a00 <- Vector3.at_ (row_0_ self) 0 ;;
  a01 <- Vector3.at_ (row_0_ self) 1 ;;
  a02 <- Vector3.at_ (row_0_ self) 2 ;;
  a10 <- Vector3.at_ (row_1_ self) 0 ;;
  a11 <- Vector3.at_ (row_1_ self) 1 ;;
  a12 <- Vector3.at_ (row_1_ self) 2 ;;
  a20 <- Vector3.at_ (row_2_ self) 0 ;;
  a21 <- Vector3.at_ (row_2_ self) 1 ;;
  a22 <- Vector3.at_ (row_2_ self) 2 ;;
  Ok (a00 * (a11 * a22 - a12 * a21) -
      a01 * (a10 * a22 - a12 * a20) +
      a02 * (a10 * a21 - a11 * a20)).

Definition inverse_error : exception :=
  runtime_error "Matrix is non-invertible".

(** [Matrix3::inverse]. The literal [0.000001] is the double
    [0x1.0c6f7a0b5ed8dp-20]. *)
Definition inverse (self : t) : result t :=
  det <- det self ;;
  if abs det <? 0x1.0c6f7a0b5ed8dp-20 then Throw inverse_error
  else
    a <- Vector3.at_ (row_0_ self) 0 ;;
    b <- Vector3.at_ (row_0_ self) 1 ;;
    c <- Vector3.at_ (row_0_ self) 2 ;;
    d <- Vector3.at_ (row_1_ self) 0 ;;
    e <- Vector3.at_ (row_1_ self) 1 ;;
    f <- Vector3.at_ (row_1_ self) 2 ;;
    g <- Vector3.at_ (row_2_ self) 0 ;;
    h <- Vector3.at_ (row_2_ self) 1 ;;
    k <- Vector3.at_ (row_2_ self) 2 ;;
    Ok (scalar_mul (1 / det)
          (mk (e * k - f * h) (- (b * k - c * h)) (b * f - c * e)
              (- (d * k - f * g)) (a * k - c * g) (- (a * f - c * d))
              (d * h - e * g) (- (a * h - b * h)) (a * e - b * d))).

(** [Vector3 Matrix3::row(const int index) const] *)
Definition row (self : t) (index : Z) : result Vector3 := at_ self index.

(** [Vector3& Matrix3::row(const int index)] *)
Definition row_ref (self : t) (index : Z) : result (field * t) := at_ref self index.

(** [Matrix3::col] *)
Definition col (self : t) (index : Z) : result Vector3 :=
  c0 <- Vector3.at_ (row_0_ self) index ;;
  c1 <- Vector3.at_ (row_1_ self) index ;;
  c2 <- Vector3.at_ (row_2_ self) index ;;
  Ok (Vector3.mk c0 c1 c2).

(** [Matrix3 Matrix3::product(const Matrix3& matrix) const] *)
Definition product (self matrix : t) : result t :=
  r0 <- row self 0 ;;
  r1 <- row self 1 ;;
  r2 <- row self 2 ;;
  c0 <- col matrix 0 ;;
  c1 <- col matrix 1 ;;
  c2 <- col matrix 2 ;;
  Ok (mk (Vector3.dot r0 c0) (Vector3.dot r0 c1) (Vector3.dot r0 c2)
         (Vector3.dot r1 c0) (Vector3.dot r1 c1) (Vector3.dot r1 c2)
         (Vector3.dot r2 c0) (Vector3.dot r2 c1) (Vector3.dot r2 c2)).

(** [std::array<double, 3>::at] used as the target of an assignment:
    [arr.at(i) = d]. *)
Fixpoint array_at_put (arr : list float) (i : nat) (d : float) : result (list float) :=
  match arr, i with
  | [], _ => Throw (out_of_range "array::at")
  | _ :: tl, O => Ok (d :: tl)
  | hd :: tl, S i' => tl' <- array_at_put tl i' d ;; Ok (hd :: tl')
  end.

(** The loop [for (int i = 0; i < 3; ++i) arr.at(i) = row(i).dot(vector)];
    [n] bounds the number of iterations that are left. *)
Fixpoint product_loop (self : t) (vector : Vector3) (n : nat) (i : Z)
    (arr : list float) : result (list float) :=
  match n with
  | O => Ok arr
  | S n' =>
      if (i <? 3)%Z then
        r <- row self i ;;
        arr' <- array_at_put arr (Z.to_nat i) (Vector3.dot r vector) ;;
        product_loop self vector n' (i + 1)%Z arr'
      else Ok arr
  end.

(** [Vector3 Matrix3::product(const Vector3& vector) const] *)
Definition product_vector (self : t) (vector : Vector3) : result Vector3 :=
  arr <- product_loop self vector 3 0%Z [0; 0; 0] ;;
  Ok (Vector3.mk (nth 0 arr 0) (nth 1 arr 0) (nth 2 arr 0)).

End Matrix3.

Abbreviation Matrix3 := Matrix3.t.

(** ** Isometry (isometry.cpp) *)

Module Isometry.

Record t : Type := mk_fields { rotation_ : Matrix3; translation_ : Vector3 }.

(** [Isometry::Isometry()] *)
Definition default : t := mk_fields Matrix3.kZero Vector3.default.

(** [Isometry::Isometry(const Vector3& translation, const Matrix3& rotation)] *)
Definition mk (translation : Vector3) (rotation : Matrix3) : t :=
  mk_fields rotation translation.

Definition translation (self : t) : Vector3 := translation_ self.
Definition rotation (self : t) : Matrix3 := rotation_ self.

Definition fromTranslation (vector : Vector3) : t := mk vector Matrix3.kIdentity.

(** [Vector3 Isometry::transform(const Vector3& vector) const] *)
Definition transform (self : t) (vector : Vector3) : Vector3 :=
  Vector3.add (Matrix3.mul_vector (rotation_ self) vector) (translation_ self).

(** [Isometry::inverse] *)
Definition inverse (self : t) : result t :=
  inv_rot <- Matrix3.inverse (rotation_ self) ;;
  p <- Matrix3.product_vector inv_rot (translation_ self) ;;
  Ok (mk (Vector3.scalar_mul (-1) p) inv_rot).

(** [Isometry Isometry::operator*(const Isometry& isometry) const] *)
Definition mul (self isometry : t) : result t :=
  let tr := Vector3.add (Matrix3.mul_vector (rotation_ self) (translation isometry))
                        (translation_ self) in
  rot <- Matrix3.mul (rotation_ self) (rotation isometry) ;;
  Ok (mk tr rot).

(** [Isometry::compose] *)
Definition compose (self isometry : t) : result t := mul self isometry.

(** [Isometry::operator*=] *)
Definition mul_assign (self isometry : t) : result t :=
  let translation' :=
    Vector3.add (Matrix3.mul_vector (rotation_ self) (translation isometry))
                (translation_ self) in
  rotation' <- Matrix3.mul (rotation_ self) (rotation isometry) ;;
  Ok (mk_fields rotation' translation').

(** [Vector3 Isometry::operator*(const Vector3& vector) const] *)
Definition mul_vector (self : t) (vector : Vector3) : result Vector3 :=
  p <- Matrix3.product_vector (rotation_ self) vector ;;
  Ok (Vector3.add p (translation_ self)).

(** [Isometry::operator==] *)
Definition eqb (self isometry : t) : result bool :=
  b <- Matrix3.eqb (rotation_ self) (rotation_ isometry) ;;
  if b then Ok (Vector3.eqb (translation_ self) (translation_ isometry))
  else Ok false.

Section Libm.

Variables cos sin : float -> float.
Variable pow : float -> float -> float.

(** [Isometry::rotateAround] *)
Definition rotateAround (vector : Vector3) (radians : float) : result t :=
  v0 <- Vector3.at_ vector 0 ;;
  let ux := v0 / Vector3.norm vector in
  v1 <- Vector3.at_ vector 1 ;;
  let uy := v1 / Vector3.norm vector in
  v2 <- Vector3.at_ vector 2 ;;
  let uz := v2 / Vector3.norm vector in
  let cosAngle := cos radians in
  let sinAngle := sin radians in
  let rotationMatrix :=
    Matrix3.mk (cosAngle + pow ux 2 * (1 - cosAngle))
               (ux * uy * (1 - cosAngle) - uz * sinAngle)
               (ux * uz * (1 - cosAngle) + uy * sinAngle)
               (uy * ux * (1 - cosAngle) + uz * sinAngle)
               (cosAngle + pow uy 2 * (1 - cosAngle))
               (uy * uz * (1 - cosAngle) - ux * sinAngle)
               (uz * ux * (1 - cosAngle) - uy * sinAngle)
               (uz * uy * (1 - cosAngle) + ux * sinAngle)
               (cosAngle + pow uz 2 * (1 - cosAngle)) in
  Ok (mk Vector3.default rotationMatrix).

(** [Isometry::fromEulerAngles] *)
Definition fromEulerAngles (roll pitch yaw : float) : result t :=
  rx <- rotateAround Vector3.kUnitX roll ;;
  ry <- rotateAround Vector3.kUnitY pitch ;;
  rxy <- mul rx ry ;;
  rz <- rotateAround Vector3.kUnitZ yaw ;;
  mul rxy rz.

End Libm.

End Isometry.

Abbreviation Isometry := Isometry.t.

(** ** The specification's reference operations

    Written from the words of the specification, to be compared with the
    functions above. *)

Module Spec.

(** "[adjugate / det] using the closed-form cofactor matrix for 3x3
    inverses": the transposed matrix of the signed minors. *)
Definition adjugate (m : Matrix3) : Matrix3 :=
  let '(Matrix3.mk_rows (Vector3.mk a b c) (Vector3.mk d e f) (Vector3.mk g h k)) := m in
  Matrix3.mk (e * k - f * h) (- (b * k - c * h)) (b * f - c * e)
             (- (d * k - f * g)) (a * k - c * g) (- (a * f - c * d))
             (d * h - e * g) (- (a * h - b * g)) (a * e - b * d).

Definition inverse (m : Matrix3) (det : float) : Matrix3 :=
  Matrix3.scalar_mul (1 / det) (adjugate m).

End Spec.

(** ** Inputs used below *)

(** [M_PI / 2.] *)
Definition pi_2 : float := 0x1.921fb54442d18p+0.

(** The correctly rounded cosine of [pi_2], 6.123233995736766e-17. *)
Definition cos_pi_2 : float := 0x1.1a62633145c07p-54.

(** The rotation by a quarter turn about the z axis, with exact entries. *)
Definition quarter_turn_z : Matrix3 := Matrix3.mk 0 (-1) 0 1 0 0 0 0 1.

Definition quarter_turn : Isometry := Isometry.mk Vector3.default quarter_turn_z.

(** A matrix of determinant 1 whose third row has different first and second
    entries. *)
Definition shear : Matrix3 := Matrix3.mk 1 1 0 0 1 0 0 1 1.

(** ** Definitions used in the statements *)

(** An index of a component or of a row. *)
Definition in_range (i : Z) : bool := ((0 <=? i) && (i <=? 2))%Z.

(** The exponent of the last mantissa bit of a double of magnitude 2^e. *)
Abbreviation fexp64 := (fexp prec emax).

Section Binary64.

Local Open Scope Z_scope.

(** The number of bits by which rounding shifts the mantissa [m] at the
    exponent [e]. *)
Definition rshift (m e : Z) : Z := Z.max 0 (fexp64 (Zdigits2 m + e) - e).

(** The value of a finite double counted in units of 2^-1074, the smallest
    positive double; 0 for a NaN and for the infinities. *)
Definition SFunits (f : spec_float) : Z :=
  match f with
  | S754_finite s m e => cond_Zopp s (Zpos m * 2 ^ (e + 1074))
  | _ => 0
  end.

Definition SFfinite (f : spec_float) : bool :=
  match f with
  | S754_zero _ | S754_finite _ _ _ => true
  | _ => false
  end.

(** [epsilon] as a mantissa and an exponent: 2^52 * 2^-104. *)
Definition SFepsilon : spec_float := S754_finite false 4503599627370496 (-104).

Definition units (x : float) : Z := SFunits (Prim2SF x).

End Binary64.

(** * Properties *)

(** ** Closed forms: the accessors are only called with indices in range *)

Lemma det_rows (a1 a2 a3 b1 b2 b3 c1 c2 c3 : float) :
  Matrix3.det (Matrix3.mk a1 a2 a3 b1 b2 b3 c1 c2 c3) =
  Ok (a1 * (b2 * c3 - b3 * c2) - a2 * (b1 * c3 - b3 * c1) + a3 * (b1 * c2 - b2 * c1)).
Proof. reflexivity. Qed.

Lemma matrix_eta (m : Matrix3) :
  exists a1 a2 a3 b1 b2 b3 c1 c2 c3, m = Matrix3.mk a1 a2 a3 b1 b2 b3 c1 c2 c3.
Proof.
  destruct m as [[a1 a2 a3] [b1 b2 b3] [c1 c2 c3]].
  now exists a1, a2, a3, b1, b2, b3, c1, c2, c3.
Qed.

Lemma rowwise_assign_ok (op : Vector3 -> Vector3 -> Vector3) (self matrix : Matrix3) :
  Matrix3.rowwise_assign op self matrix =
  Ok (Matrix3.mk_rows (op (Matrix3.row_0_ self) (Matrix3.row_0_ matrix))
                      (op (Matrix3.row_1_ self) (Matrix3.row_1_ matrix))
                      (op (Matrix3.row_2_ self) (Matrix3.row_2_ matrix))).
Proof. reflexivity. Qed.

Lemma product_vector_ok (m : Matrix3) (v : Vector3) :
  Matrix3.product_vector m v = Ok (Matrix3.mul_vector m v).
Proof. reflexivity. Qed.

Lemma isometry_mul_ok (a b : Isometry) :
  Isometry.mul a b =
  Ok (Isometry.mk
        (Vector3.add (Matrix3.mul_vector (Isometry.rotation a) (Isometry.translation b))
                     (Isometry.translation a))
        (Matrix3.mk_rows
           (Vector3.mul (Matrix3.row_0_ (Isometry.rotation a)) (Matrix3.row_0_ (Isometry.rotation b)))
           (Vector3.mul (Matrix3.row_1_ (Isometry.rotation a)) (Matrix3.row_1_ (Isometry.rotation b)))
           (Vector3.mul (Matrix3.row_2_ (Isometry.rotation a)) (Matrix3.row_2_ (Isometry.rotation b))))).
Proof. reflexivity. Qed.

(** ** Composition *)

(** C1, at the failing input: composing the quarter turn about z with itself,
    by [compose] and by [operator*], gives the translation R1.t2 + t1 but a
    rotation that is the entry-by-entry product of the two rotations, which
    [Matrix3::operator==] tells apart from their row-by-column product. *)
Theorem compose_quarter_turns_elementwise :
  Isometry.compose quarter_turn quarter_turn =
    Ok (Isometry.mk (Vector3.mk 0 0 0) (Matrix3.mk 0 1 0 1 0 0 0 0 1)) /\
  Isometry.mul quarter_turn quarter_turn =
    Ok (Isometry.mk (Vector3.mk 0 0 0) (Matrix3.mk 0 1 0 1 0 0 0 0 1)) /\
  Matrix3.product quarter_turn_z quarter_turn_z =
    Ok (Matrix3.mk (-1) 0 0 0 (-1) 0 0 0 1) /\
  Matrix3.eqb (Matrix3.mk 0 1 0 1 0 0 0 0 1) (Matrix3.mk (-1) 0 0 0 (-1) 0 0 0 1) = Ok false.
Proof. repeat split; vm_compute; reflexivity. Qed.

(** C4, at the failing input: with A = B the quarter turn about z and C the
    translation by (1,0,0), (A*B)*C and A*(B*C) have the translations (0,1,0)
    and (-1,0,0), and [Isometry::operator==] tells them apart. *)
Theorem composition_not_associative :
  (ab <- Isometry.mul quarter_turn quarter_turn ;;
   Isometry.mul ab (Isometry.fromTranslation (Vector3.mk 1 0 0))) =
    Ok (Isometry.mk (Vector3.mk 0 1 0) (Matrix3.mk 0 0 0 0 0 0 0 0 1)) /\
  (bc <- Isometry.mul quarter_turn (Isometry.fromTranslation (Vector3.mk 1 0 0)) ;;
   Isometry.mul quarter_turn bc) =
    Ok (Isometry.mk (Vector3.mk (-1) 0 0) (Matrix3.mk 0 0 0 0 0 0 0 0 1)) /\
  Isometry.eqb (Isometry.mk (Vector3.mk 0 1 0) (Matrix3.mk 0 0 0 0 0 0 0 0 1))
               (Isometry.mk (Vector3.mk (-1) 0 0) (Matrix3.mk 0 0 0 0 0 0 0 0 1)) = Ok false.
Proof. repeat split; vm_compute; reflexivity. Qed.

(** ** Inversion *)

(** C2, at the failing input [shear] (determinant 1): [inverse] returns a
    matrix whose entry (2,1) is -0 where the adjugate divided by the
    determinant has -1, and the product of [shear] with it has the third row
    (0,1,1), which [Matrix3::operator==] tells apart from the identity. *)
Theorem inverse_of_shear_is_not_inverse :
  Matrix3.det shear = Ok 1 /\
  Matrix3.inverse shear = Ok (Matrix3.mk 1 (-1) 0 (-0) 1 (-0) 0 (-0) 1) /\
  Spec.inverse shear 1 = Matrix3.mk 1 (-1) 0 (-0) 1 (-0) 0 (-1) 1 /\
  (inv <- Matrix3.inverse shear ;; Matrix3.product shear inv) =
    Ok (Matrix3.mk 1 0 0 0 1 0 0 1 1) /\
  Matrix3.eqb (Matrix3.mk 1 0 0 0 1 0 0 1 1) Matrix3.kIdentity = Ok false /\
  Matrix3.product shear (Spec.inverse shear 1) = Ok (Matrix3.mk 1 0 0 0 1 0 0 0 1).
Proof. repeat split; vm_compute; reflexivity. Qed.

(** C3, at the failing input: for a C library whose cosine and sine of
    [M_PI / 2.] are the correctly rounded ones and whose [pow] is exact at
    0^2 and 1^2, with I = rotateAround((0,0,1), M_PI / 2.) the isometry
    I.inverse().compose(I) sends (1,0,0) to (3.749399456654644e-33, -1, 0),
    which [Vector3::operator==] tells apart from (1,0,0). *)
Theorem inverse_compose_quarter_turn
    (cos sin : float -> float) (pow : float -> float -> float) :
  cos pi_2 = cos_pi_2 -> sin pi_2 = 1 -> pow 0 2 = 0 -> pow 1 2 = 1 ->
  (i <- Isometry.rotateAround cos sin pow (Vector3.mk 0 0 1) pi_2 ;;
   j <- Isometry.inverse i ;;
   k <- Isometry.compose j i ;;
   Ok (Isometry.transform k (Vector3.mk 1 0 0))) =
    Ok (Vector3.mk 0x1.377ce858a5d48p-108 (-1) 0) /\
  Vector3.eqb (Vector3.mk 0x1.377ce858a5d48p-108 (-1) 0) (Vector3.mk 1 0 0) = false.
Proof.
  intros Hcos Hsin Hpow0 Hpow1.
  split; [| vm_compute; reflexivity].
  unfold Isometry.rotateAround.
  cbn [Vector3.at_ bind Vector3.x Vector3.y Vector3.z].
  rewrite Hcos, Hsin.
  replace (0 / Vector3.norm (Vector3.mk 0 0 1)) with 0 by (vm_compute; reflexivity).
  replace (1 / Vector3.norm (Vector3.mk 0 0 1)) with 1 by (vm_compute; reflexivity).
  rewrite Hpow0, Hpow1.
  vm_compute; reflexivity.
Qed.

Lemma inverse_compose_quarter_turn_witness :
  (i <- Isometry.rotateAround (fun _ => cos_pi_2) (fun _ => 1) (fun u _ => u * u)
          (Vector3.mk 0 0 1) pi_2 ;;
   j <- Isometry.inverse i ;;
   k <- Isometry.compose j i ;;
   Ok (Isometry.transform k (Vector3.mk 1 0 0))) =
    Ok (Vector3.mk 0x1.377ce858a5d48p-108 (-1) 0) /\
  Vector3.eqb (Vector3.mk 0x1.377ce858a5d48p-108 (-1) 0) (Vector3.mk 1 0 0) = false.
Proof.
  apply (inverse_compose_quarter_turn (fun _ => cos_pi_2) (fun _ => 1) (fun u _ => u * u));
    vm_compute; reflexivity.
Defined.

(** C5: [inverse] throws exactly when the absolute value of the determinant is
    below the double 0.000001, the exception is then the runtime error
    "Matrix is non-invertible", nothing else is ever thrown, and the zero
    matrix throws. *)
Theorem inverse_throws_iff_near_singular :
  (forall m : Matrix3, exists d : float,
      Matrix3.det m = Ok d /\
      (Matrix3.inverse m = Throw (runtime_error "Matrix is non-invertible") <->
       (abs d <? 0x1.0c6f7a0b5ed8dp-20) = true) /\
      (forall e, Matrix3.inverse m = Throw e <-> 
         e = runtime_error "Matrix is non-invertible" /\
         (abs d <? 0x1.0c6f7a0b5ed8dp-20) = true) /\
      ((exists r, Matrix3.inverse m = Ok r) <->
       (abs d <? 0x1.0c6f7a0b5ed8dp-20) = false)) /\
  Matrix3.det Matrix3.kZero = Ok 0 /\
  Matrix3.inverse Matrix3.kZero = Throw (runtime_error "Matrix is non-invertible").
Proof.
  split; [| split; reflexivity].
  intros m.
  destruct (matrix_eta m) as (a1 & a2 & a3 & b1 & b2 & b3 & c1 & c2 & c3 & ->).
  eexists. split; [apply det_rows |].
  unfold Matrix3.inverse. rewrite det_rows. cbn [bind].
  destruct (abs _ <? _); cbn [Matrix3.mk Matrix3.row_0_ Matrix3.row_1_ Matrix3.row_2_
                               Vector3.at_ Vector3.x Vector3.y Vector3.z bind].
  - split; [| split].
    + split; reflexivity.
    + intros e; split.
      * intros H; inversion H; split; reflexivity.
      * intros [-> _]; reflexivity.
    + split; [intros [r H]; discriminate H | discriminate].
  - split; [| split].
    + split; discriminate.
    + intros e; split; [discriminate | intros [_ H]; discriminate H].
    + split; [reflexivity | intros _; eexists; reflexivity].
Qed.

(** ** Indexed access *)

Lemma index_cases (i : Z) :
  (i = 0 \/ i = 1 \/ i = 2)%Z /\ in_range i = true \/
  in_range i = false /\
  (forall v, Vector3.at_ v i = Throw Vector3.index_error) /\
  (forall v, Vector3.at_ref v i = Throw Vector3.index_error) /\
  (forall m, Matrix3.at_ m i = Throw Matrix3.index_error) /\
  (forall m, Matrix3.at_ref m i = Throw Matrix3.index_error).
Proof.
  unfold in_range.
  destruct i as [| p | p].
  - left. split; [lia | reflexivity].
  - destruct p as [[q | q |] | [q | q |] |].
    all: try (left; split; [lia | reflexivity]).
    all: right; repeat split; try reflexivity.
    all: apply andb_false_iff; right; apply Z.leb_gt; lia.
  - right; repeat split; reflexivity.
Qed.

(** C6: for every index [i], each of the four accessors throws
    [std::out_of_range] when [i] is outside [0,2] and otherwise returns the
    component or row number [i]; the accessors that return a reference return
    the one of that component or row and leave the object as it was. *)
Theorem index_accessors (i : Z) (v : Vector3) (m : Matrix3) :
  Vector3.at_ v i =
    (if in_range i
     then Ok (nth (Z.to_nat i) [Vector3.x v; Vector3.y v; Vector3.z v] 0)
     else Throw (out_of_range "Vector3 has only 3 elements")) /\
  Vector3.at_ref v i =
    (if in_range i
     then Ok (nth (Z.to_nat i) [Vector3.x_; Vector3.y_; Vector3.z_] Vector3.x_, v)
     else Throw (out_of_range "Vector3 has only 3 elements")) /\
  Matrix3.at_ m i =
    (if in_range i
     then Ok (nth (Z.to_nat i) [Matrix3.row_0_ m; Matrix3.row_1_ m; Matrix3.row_2_ m]
                  Vector3.default)
     else Throw (out_of_range "Matrix3 has only 3 elements")) /\
  Matrix3.at_ref m i =
    (if in_range i
     then Ok (nth (Z.to_nat i) [Matrix3.row_0; Matrix3.row_1; Matrix3.row_2] Matrix3.row_0, m)
     else Throw (out_of_range "Matrix3 has only 3 elements")) /\
  is_out_of_range (Vector3.at_ v i) = negb (in_range i) /\
  is_out_of_range (Vector3.at_ref v i) = negb (in_range i) /\
  is_out_of_range (Matrix3.at_ m i) = negb (in_range i) /\
  is_out_of_range (Matrix3.at_ref m i) = negb (in_range i).
Proof.
  destruct (index_cases i) as [[[-> | [-> | ->]] _] | (Hout & Hv & Hvr & Hm & Hmr)].
  1-3: repeat split; reflexivity.
  rewrite Hv, Hvr, Hm, Hmr, Hout. repeat split; reflexivity.
Qed.

(** ** Binary64 facts *)

Lemma finite_cases (x : float) :
  is_finite x = true ->
  (exists s, Prim2SF x = S754_zero s) \/ (exists s m e, Prim2SF x = S754_finite s m e).
Proof.
  unfold is_finite, is_nan, is_infinity.
  rewrite !eqb_spec, abs_spec.
  change (Prim2SF infinity) with (S754_infinity false).
  destruct (Prim2SF x) as [s | s | | s m e]; cbn; intros H.
  - left; now exists s.
  - destruct s; discriminate H.
  - discriminate H.
  - right; now exists s, m, e.
Qed.

Lemma sub_diag_finite (x : float) : is_finite x = true -> x - x = 0.
Proof.
  intros H. apply Prim2SF_inj. rewrite sub_spec.
  change (Prim2SF 0) with (S754_zero false).
  destruct (finite_cases x H) as [[s ->] | (s & m & e & ->)].
  - now destruct s.
  - unfold SF64sub, SFsub. now rewrite Z.sub_diag.
Qed.

Lemma zero_mul_finite (x : float) :
  is_finite x = true -> exists s, Prim2SF (0 * x) = S754_zero s.
Proof.
  intros H. rewrite mul_spec.
  change (Prim2SF 0) with (S754_zero false).
  destruct (finite_cases x H) as [[s ->] | (s & m & e & ->)]; cbn; eauto.
Qed.

Lemma add_zeros (a b : float) (s t : bool) :
  Prim2SF a = S754_zero s -> Prim2SF b = S754_zero t ->
  exists u, Prim2SF (a + b) = S754_zero u.
Proof.
  intros Ha Hb. rewrite add_spec, Ha, Hb.
  destruct s, t; cbn; eauto.
Qed.

Lemma add_zero_pos (a : float) (s : bool) : Prim2SF a = S754_zero s -> a + 0 = 0.
Proof.
  intros Ha. apply Prim2SF_inj. rewrite add_spec, Ha.
  change (Prim2SF 0) with (S754_zero false).
  now destruct s.
Qed.

Lemma zero_dot_finite (p : Vector3) :
  Vector3.finite p = true -> Vector3.dot (Vector3.mk 0 0 0) p + 0 = 0.
Proof.
  unfold Vector3.finite. intros H.
  apply andb_prop in H as [H Hz]. apply andb_prop in H as [Hx Hy].
  unfold Vector3.dot; cbn [Vector3.x Vector3.y Vector3.z].
  destruct (zero_mul_finite _ Hx) as [sx Ex].
  destruct (zero_mul_finite _ Hy) as [sy Ey].
  destruct (zero_mul_finite _ Hz) as [sz Ez].
  destruct (add_zeros _ _ _ _ Ex Ey) as [sxy Exy].
  destruct (add_zeros _ _ _ _ Exy Ez) as [s E].
  exact (add_zero_pos _ _ E).
Qed.

(** Values that are not finite: infinities and NaNs. *)

Lemma is_finite_SF (x : float) : is_finite x = SFfinite (Prim2SF x).
Proof.
  unfold is_finite, is_nan, is_infinity. rewrite !eqb_spec, abs_spec.
  change (Prim2SF infinity) with (S754_infinity false).
  destruct (Prim2SF x) as [s | s | | s m e]; try (destruct s; reflexivity); try reflexivity.
  unfold SFeqb, SFcompare, SFabs.
  rewrite Z.compare_refl, Pos.compare_cont_refl. now destruct s.
Qed.

Lemma sub_not_finite_r (x y : float) : is_finite y = false -> is_finite (x - y) = false.
Proof.
  rewrite !is_finite_SF, sub_spec.
  destruct (Prim2SF y) as [t | t | | t m' e']; try discriminate; intros _;
    destruct (Prim2SF x) as [s | s | | s m e]; try reflexivity; destruct s, t; reflexivity.
Qed.

Lemma sub_not_finite_l (x y : float) : is_finite x = false -> is_finite (x - y) = false.
Proof.
  rewrite !is_finite_SF, sub_spec.
  destruct (Prim2SF x) as [s | s | | s m e]; try discriminate; intros _;
    destruct (Prim2SF y) as [t | t | | t m' e']; try reflexivity; destruct s, t; reflexivity.
Qed.

Lemma not_finite_not_close (d : float) :
  is_finite d = false -> (abs d <=? epsilon) = false.
Proof.
  rewrite is_finite_SF, leb_spec, abs_spec.
  destruct (Prim2SF d) as [s | s | | s m e]; try discriminate; reflexivity.
Qed.

(** ** Rounding of a binary64 subtraction

    The difference of two doubles is rounded to nearest; the lemmas below
    follow [SFsub] through [binary_normalize] and [binary_round_aux] and show
    that the rounding is monotone at a power of two. *)

Section Rounding.

Local Open Scope Z_scope.

Lemma iter_pos_nat {A : Type} (f : A -> A) (p : positive) (x : A) :
  iter_pos f p x = Nat.iter (Pos.to_nat p) f x.
Proof.
  revert x. induction p as [p IH | p IH |]; intros x; cbn [iter_pos].
  - rewrite !IH, Pos2Nat.inj_xI, <- Nat.iter_add, <- Nat.iter_succ_r.
    f_equal. lia.
  - rewrite !IH, Pos2Nat.inj_xO, <- Nat.iter_add. f_equal. lia.
  - reflexivity.
Qed.

Lemma shr_1_spec (m : Z) (r s : bool) :
  0 <= m ->
  shr_1 (Build_shr_record m r s) = Build_shr_record (m / 2) (Z.odd m) (r || s).
Proof.
  intros Hm. rewrite <- Z.div2_div.
  destruct m as [| [p | p |] | p]; try reflexivity; lia.
Qed.

Lemma shr_iter (k : nat) (M : Z) :
  0 <= M ->
  exists r s,
    Nat.iter k shr_1 (Build_shr_record M false false) =
      Build_shr_record (M / 2 ^ Z.of_nat k) r s /\
    (M mod 2 ^ Z.of_nat k = 0 -> r = false /\ s = false).
Proof.
  intros HM. induction k as [| k (r & s & E & Hex)].
  - exists false, false. cbn. rewrite Z.div_1_r. auto.
  - exists (Z.odd (M / 2 ^ Z.of_nat k)), (r || s)%bool.
    cbn [Nat.iter nat_rect]. 
    change (nat_rect _ _ _ k) with (Nat.iter k shr_1 (Build_shr_record M false false)).
    rewrite E.
    assert (Hp : 0 < 2 ^ Z.of_nat k) by (apply Z.pow_pos_nonneg; lia).
    rewrite shr_1_spec by (apply Z.div_pos; lia).
    rewrite Nat2Z.inj_succ, Z.pow_succ_r by lia.
    split.
    + f_equal. rewrite Z.div_div by lia. f_equal. lia.
    + intros Hmod.
      apply Z.mod_divide in Hmod; [| lia].
      destruct Hmod as [q Hq].
      assert (HMq : M = (2 * q) * 2 ^ Z.of_nat k) by lia.
      assert (Hk : M mod 2 ^ Z.of_nat k = 0) by (rewrite HMq; apply Z.mod_mul; lia).
      destruct (Hex Hk) as [-> ->].
      split; [| reflexivity].
      rewrite HMq, Z.div_mul by lia.
      rewrite Z.odd_mul. reflexivity.
Qed.

Lemma shr_spec (M e n : Z) :
  0 <= M ->
  exists r s,
    shr (Build_shr_record M false false) e n =
      (Build_shr_record (M / 2 ^ Z.max 0 n) r s, e + Z.max 0 n) /\
    (M mod 2 ^ Z.max 0 n = 0 -> r = false /\ s = false).
Proof.
  intros HM. destruct n as [| p | p]; cbn [shr].
  - exists false, false. rewrite Z.max_l, Z.div_1_r, Z.add_0_r by lia. auto.
  - destruct (shr_iter (Pos.to_nat p) M HM) as (r & s & E & Hex).
    rewrite positive_nat_Z in E, Hex.
    exists r, s. rewrite iter_pos_nat, E, Z.max_r by lia. auto.
  - exists false, false. rewrite Z.max_l, Z.div_1_r, Z.add_0_r by lia. auto.
Qed.

Lemma digits2_pos_bounds (m : positive) :
  2 ^ (Zpos (digits2_pos m) - 1) <= Zpos m < 2 ^ Zpos (digits2_pos m).
Proof.
  induction m as [m IH | m IH |]; cbn [digits2_pos].
  - rewrite Pos2Z.inj_succ, (Pos2Z.inj_xI m).
    replace (Z.succ (Zpos (digits2_pos m)) - 1) with (Z.succ (Zpos (digits2_pos m) - 1)) by lia.
    rewrite !Z.pow_succ_r by lia. lia.
  - rewrite Pos2Z.inj_succ, (Pos2Z.inj_xO m).
    replace (Z.succ (Zpos (digits2_pos m)) - 1) with (Z.succ (Zpos (digits2_pos m) - 1)) by lia.
    rewrite !Z.pow_succ_r by lia. lia.
  - cbn. lia.
Qed.

Lemma round_nearest_even_spec (m : Z) (r s : bool) :
  m <= round_nearest_even m (loc_of_shr_record (Build_shr_record m r s)) <= m + 1 /\
  (r = false /\ s = false ->
   round_nearest_even m (loc_of_shr_record (Build_shr_record m r s)) = m).
Proof.
  destruct r, s; cbn; try destruct (Z.even m); split; try lia; try reflexivity;
    intros [? ?]; discriminate.
Qed.


(** What [binary_round_aux] computes from an exact mantissa. *)
Lemma binary_round_aux_exact (sx : bool) (mz : positive) (ez : Z) :
  exists m2 : Z,
    Zpos mz / 2 ^ rshift (Zpos mz) ez <= m2 <= Zpos mz / 2 ^ rshift (Zpos mz) ez + 1 /\
    (Zpos mz mod 2 ^ rshift (Zpos mz) ez = 0 -> m2 = Zpos mz / 2 ^ rshift (Zpos mz) ez) /\
    binary_round_aux prec emax sx (Zpos mz) ez loc_Exact =
      match m2 / 2 ^ rshift m2 (ez + rshift (Zpos mz) ez) with
      | Z0 => S754_zero sx
      | Zpos m =>
          if ez + rshift (Zpos mz) ez + rshift m2 (ez + rshift (Zpos mz) ez) <=? emax - prec
          then S754_finite sx m (ez + rshift (Zpos mz) ez + rshift m2 (ez + rshift (Zpos mz) ez))
          else S754_infinity sx
      | Zneg _ => S754_nan
      end.
Proof.
  unfold binary_round_aux, shr_fexp.
  cbn [shr_record_of_loc].
  destruct (shr_spec (Zpos mz) ez (fexp64 (Zdigits2 (Zpos mz) + ez) - ez))
    as (r & s & E1 & Hex1); [lia |].
  fold (rshift (Zpos mz) ez) in E1, Hex1. rewrite E1.
  set (s1 := rshift (Zpos mz) ez) in *.
  cbn [shr_m].
  destruct (round_nearest_even_spec (Zpos mz / 2 ^ s1) r s) as [Hb Hexact].
  set (m2 := round_nearest_even _ _) in *.
  exists m2. split; [exact Hb |]. split; [intros H; apply Hexact, Hex1, H |].
  assert (Hm2 : 0 <= m2).
  { assert (0 <= Zpos mz / 2 ^ s1).
    { apply Z.div_pos; [lia | apply Z.pow_pos_nonneg; unfold s1, rshift; lia]. }
    lia. }
  destruct (shr_spec m2 (ez + s1) (fexp64 (Zdigits2 m2 + (ez + s1)) - (ez + s1)))
    as (r' & s' & E2 & _); [exact Hm2 |].
  fold (rshift m2 (ez + s1)) in E2. rewrite E2. cbn [shr_m]. reflexivity.
Qed.

Lemma pow2_pos (n : Z) : 0 <= n -> 0 < 2 ^ n.
Proof. intros; apply Z.pow_pos_nonneg; lia. Qed.

Lemma pow2_le (a b : Z) : a <= b -> 2 ^ a <= 2 ^ b.
Proof. intros; apply Z.pow_le_mono_r; lia. Qed.

Lemma pow2_lt (a b : Z) : 0 <= b -> a < b -> 2 ^ a < 2 ^ b.
Proof. intros; apply Z.pow_lt_mono_r; lia. Qed.

Lemma pow2_lt_inv (a b : Z) : 0 <= b -> 2 ^ a < 2 ^ b -> a < b.
Proof. intros Hb H. apply (Z.pow_lt_mono_r_iff 2); [lia | exact Hb | exact H]. Qed.

Lemma rshift_nonneg (m e : Z) : 0 <= rshift m e.
Proof. unfold rshift; lia. Qed.

(** When the mantissa is shifted, the shift is fixed by the number of digits,
    unless the result lands on the smallest exponent. *)
Lemma rshift_cases (m e : Z) :
  rshift m e = 0 \/
  0 < rshift m e /\
  (rshift m e = Zdigits2 m - 53 \/ e + rshift m e = -1074).
Proof. unfold rshift, fexp, emin, prec, emax. lia. Qed.

(** The mantissa after the first shift and the rounding, against a power of
    two. *)
Lemma round_step_upper (mz : positive) (ez K m2 : Z) :
  -1074 <= ez -> -1074 <= K ->
  Zpos mz * 2 ^ (ez + 1074) <= 2 ^ (K + 1074) ->
  m2 <= Zpos mz / 2 ^ rshift (Zpos mz) ez + 1 ->
  (Zpos mz mod 2 ^ rshift (Zpos mz) ez = 0 -> m2 = Zpos mz / 2 ^ rshift (Zpos mz) ez) ->
  m2 * 2 ^ (ez + rshift (Zpos mz) ez + 1074) <= 2 ^ (K + 1074).
Proof.
  intros Hez HK H Hm2 Hexact.
  pose proof (rshift_cases (Zpos mz) ez) as Hc.
  set (s1 := rshift (Zpos mz) ez) in *.
  assert (Hs1 : 0 <= s1) by apply rshift_nonneg.
  assert (Ha : 0 < 2 ^ (ez + 1074)) by (apply pow2_pos; lia).
  assert (Hp1 : 0 < 2 ^ s1) by (apply pow2_pos; lia).
  replace (ez + s1 + 1074) with (s1 + (ez + 1074)) by lia.
  destruct (Z_le_gt_dec (s1 + (ez + 1074)) (K + 1074)) as [HL | HL].
  - set (J := K + 1074 - (s1 + (ez + 1074))).
    assert (HJ : 0 <= J) by (unfold J; lia).
    assert (HpJ : 0 < 2 ^ J) by (apply pow2_pos; lia).
    assert (EK : 2 ^ (K + 1074) = 2 ^ J * 2 ^ s1 * 2 ^ (ez + 1074)).
    { rewrite <- !Z.pow_add_r by lia. f_equal. unfold J. lia. }
    assert (Ep : 2 ^ (s1 + (ez + 1074)) = 2 ^ s1 * 2 ^ (ez + 1074))
      by (apply Z.pow_add_r; lia).
    rewrite EK in H |- *. rewrite Ep.
    assert (Hmz : Zpos mz <= 2 ^ J * 2 ^ s1).
    { apply (Z.mul_le_mono_pos_r _ _ (2 ^ (ez + 1074))); [exact Ha | exact H]. }
    assert (Hm1 : Zpos mz / 2 ^ s1 <= 2 ^ J).
    { apply Z.div_le_upper_bound; [exact Hp1 | lia]. }
    assert (Hm2' : m2 <= 2 ^ J).
    { destruct (Z.eq_dec (Zpos mz / 2 ^ s1) (2 ^ J)) as [E | NE]; [| lia].
      assert (Hge : 2 ^ s1 * (Zpos mz / 2 ^ s1) <= Zpos mz) by (apply Z.mul_div_le; lia).
      rewrite E in Hge.
      assert (Emz : Zpos mz = 2 ^ J * 2 ^ s1) by lia.
      rewrite Hexact; [lia |].
      rewrite Emz. apply Z.mod_mul. lia. }
    rewrite Z.mul_assoc.
    apply Z.mul_le_mono_nonneg_r; [lia |].
    apply Z.mul_le_mono_nonneg_r; lia.
  - exfalso.
    assert (Hlow : 2 ^ (s1 + (ez + 1074)) <= Zpos mz * 2 ^ (ez + 1074)).
    { rewrite Z.pow_add_r by lia.
      apply Z.mul_le_mono_nonneg_r; [lia |].
      destruct Hc as [E0 | [Hpos [Ed | Emin]]].
      - rewrite E0. cbn. lia.
      - pose proof (digits2_pos_bounds mz) as [Hd _].
        cbn [Zdigits2] in Ed.
        transitivity (2 ^ (Zpos (digits2_pos mz) - 1)); [apply pow2_le; lia | exact Hd].
      - lia. }
    assert (2 ^ (K + 1074) < 2 ^ (s1 + (ez + 1074))) by (apply pow2_lt; lia).
    lia.
Qed.

Lemma round_step_lower (mz : positive) (ez K m2 : Z) :
  -1074 <= ez -> -1074 <= K ->
  2 ^ (K + 1074) <= Zpos mz * 2 ^ (ez + 1074) ->
  Zpos mz / 2 ^ rshift (Zpos mz) ez <= m2 ->
  1 <= m2 /\ 2 ^ (K + 1074) <= m2 * 2 ^ (ez + rshift (Zpos mz) ez + 1074).
Proof.
  intros Hez HK H Hm2.
  pose proof (rshift_cases (Zpos mz) ez) as Hc.
  set (s1 := rshift (Zpos mz) ez) in *.
  assert (Hs1 : 0 <= s1) by apply rshift_nonneg.
  assert (Ha : 0 < 2 ^ (ez + 1074)) by (apply pow2_pos; lia).
  assert (Hp1 : 0 < 2 ^ s1) by (apply pow2_pos; lia).
  replace (ez + s1 + 1074) with (s1 + (ez + 1074)) by lia.
  assert (Ep : 2 ^ (s1 + (ez + 1074)) = 2 ^ s1 * 2 ^ (ez + 1074))
    by (apply Z.pow_add_r; lia).
  destruct (Z_le_gt_dec (s1 + (ez + 1074)) (K + 1074)) as [HL | HL].
  - set (J := K + 1074 - (s1 + (ez + 1074))).
    assert (HJ : 0 <= J) by (unfold J; lia).
    assert (HpJ : 0 < 2 ^ J) by (apply pow2_pos; lia).
    assert (EK : 2 ^ (K + 1074) = 2 ^ J * 2 ^ s1 * 2 ^ (ez + 1074)).
    { rewrite <- !Z.pow_add_r by lia. f_equal. unfold J. lia. }
    rewrite EK in H |- *. rewrite Ep.
    assert (Hmz : 2 ^ J * 2 ^ s1 <= Zpos mz).
    { apply (Z.mul_le_mono_pos_r _ _ (2 ^ (ez + 1074))); [exact Ha | exact H]. }
    assert (Hm1 : 2 ^ J <= Zpos mz / 2 ^ s1).
    { apply Z.div_le_lower_bound; [exact Hp1 | lia]. }
    split; [lia |].
    rewrite Z.mul_assoc.
    apply Z.mul_le_mono_nonneg_r; [lia |].
    apply Z.mul_le_mono_nonneg_r; lia.
  - assert (Hm1 : 1 <= Zpos mz / 2 ^ s1).
    { apply Z.div_le_lower_bound; [exact Hp1 |]. rewrite Z.mul_1_r.
      destruct Hc as [E0 | [Hpos [Ed | Emin]]].
      - rewrite E0. cbn. lia.
      - pose proof (digits2_pos_bounds mz) as [Hd _].
        cbn [Zdigits2] in Ed.
        transitivity (2 ^ (Zpos (digits2_pos mz) - 1)); [apply pow2_le; lia | exact Hd].
      - lia. }
    split; [lia |].
    transitivity (2 ^ (s1 + (ez + 1074))); [apply pow2_le; lia |].
    rewrite <- (Z.mul_1_l (2 ^ (s1 + (ez + 1074)))) at 1.
    apply Z.mul_le_mono_nonneg_r; [apply Z.pow_nonneg |]; lia.
Qed.

(** The second shift never increases the value. *)
Lemma renorm_upper (m2 e1 : Z) :
  0 <= m2 -> -1074 <= e1 ->
  0 <= m2 / 2 ^ rshift m2 e1 /\
  m2 / 2 ^ rshift m2 e1 * 2 ^ (e1 + rshift m2 e1 + 1074) <= m2 * 2 ^ (e1 + 1074).
Proof.
  intros Hm2 He1.
  set (s2 := rshift m2 e1).
  assert (Hs2 : 0 <= s2) by apply rshift_nonneg.
  assert (Hp2 : 0 < 2 ^ s2) by (apply pow2_pos; lia).
  split; [apply Z.div_pos; lia |].
  replace (e1 + s2 + 1074) with (s2 + (e1 + 1074)) by lia.
  rewrite Z.pow_add_r, Z.mul_assoc by lia.
  apply Z.mul_le_mono_nonneg_r; [apply Z.pow_nonneg; lia |].
  rewrite Z.mul_comm. apply Z.mul_div_le. exact Hp2.
Qed.

(** The second shift keeps the value above a power of two that the value
    before the shift reaches. *)
Lemma renorm_lower (m2 e1 K : Z) :
  1 <= m2 -> -1074 <= e1 -> 
  2 ^ (K + 1074) <= m2 * 2 ^ (e1 + 1074) ->
  1 <= m2 / 2 ^ rshift m2 e1 /\
  2 ^ (K + 1074) <= m2 / 2 ^ rshift m2 e1 * 2 ^ (e1 + rshift m2 e1 + 1074).
Proof.
  intros Hm2 He1 H.
  pose proof (rshift_cases m2 e1) as Hc.
  set (s2 := rshift m2 e1) in *.
  assert (Hs2 : 0 <= s2) by apply rshift_nonneg.
  destruct Hc as [E0 | [Hpos [Ed | Emin]]].
  - rewrite E0. cbn [Z.pow]. rewrite Z.div_1_r, Z.add_0_r. split; [lia | exact H].
  - destruct m2 as [| p2 | p2]; try lia.
    cbn [Zdigits2] in Ed.
    pose proof (digits2_pos_bounds p2) as [Hlo Hhi].
    set (d := Zpos (digits2_pos p2)) in *.
    assert (Hp2 : 0 < 2 ^ s2) by (apply pow2_pos; lia).
    assert (Hm3 : 2 ^ 52 <= Zpos p2 / 2 ^ s2).
    { apply Z.div_le_lower_bound; [exact Hp2 |].
      rewrite <- Z.pow_add_r by lia.
      replace (s2 + 52) with (d - 1) by lia. exact Hlo. }
    split; [change (2 ^ 52) with 4503599627370496 in Hm3; lia |].
    assert (Hlt : 2 ^ (K + 1074) < 2 ^ (d + (e1 + 1074))).
    { eapply Z.le_lt_trans; [exact H |].
      rewrite (Z.pow_add_r 2 d (e1 + 1074)) by (unfold d; lia).
      apply Z.mul_lt_mono_pos_r; [apply pow2_pos; lia | exact Hhi]. }
    apply pow2_lt_inv in Hlt; [| lia].
    transitivity (2 ^ (52 + (e1 + s2 + 1074))); [apply pow2_le; lia |].
    rewrite Z.pow_add_r by lia.
    apply Z.mul_le_mono_nonneg_r; [apply Z.pow_nonneg; lia | exact Hm3].
  - lia.
Qed.

(** Rounding to nearest is monotone at a power of two. *)
Lemma binary_round_aux_upper (sx : bool) (mz : positive) (ez K : Z) :
  -1074 <= ez -> -1074 <= K <= 971 ->
  Zpos mz * 2 ^ (ez + 1074) <= 2 ^ (K + 1074) ->
  match binary_round_aux prec emax sx (Zpos mz) ez loc_Exact with
  | S754_zero _ => True
  | S754_finite _ m e => Zpos m * 2 ^ (e + 1074) <= 2 ^ (K + 1074)
  | _ => False
  end.
Proof.
  intros Hez HK H.
  destruct (binary_round_aux_exact sx mz ez) as (m2 & [Hlo Hhi] & Hexact & ->).
  pose proof (round_step_upper mz ez K m2 Hez (proj1 HK) H Hhi Hexact) as H2.
  set (e1 := ez + rshift (Zpos mz) ez) in *.
  assert (He1 : -1074 <= e1) by (pose proof (rshift_nonneg (Zpos mz) ez); unfold e1; lia).
  assert (Hm2 : 0 <= m2).
  { assert (0 <= Zpos mz / 2 ^ rshift (Zpos mz) ez);
      [apply Z.div_pos; [lia | apply pow2_pos, rshift_nonneg] | lia]. }
  destruct (renorm_upper m2 e1 Hm2 He1) as [Hm3 H3].
  pose proof (rshift_nonneg m2 e1) as Hs2.
  set (e3 := e1 + rshift m2 e1) in *.
  destruct (m2 / 2 ^ rshift m2 e1) as [| m | m]; [exact I | | lia].
  destruct (Z.leb_spec e3 (emax - prec)) as [Hle | Hgt]; [lia |].
  unfold emax, prec in Hgt.
  assert (2 ^ (K + 1074) < 2 ^ (e3 + 1074)) by (apply pow2_lt; lia).
  assert (2 ^ (e3 + 1074) <= Zpos m * 2 ^ (e3 + 1074)).
  { rewrite <- (Z.mul_1_l (2 ^ (e3 + 1074))) at 1.
    apply Z.mul_le_mono_nonneg_r; [apply Z.pow_nonneg |]; lia. }
  lia.
Qed.

Lemma binary_round_aux_lower (sx : bool) (mz : positive) (ez K : Z) :
  -1074 <= ez -> -1074 <= K ->
  2 ^ (K + 1074) <= Zpos mz * 2 ^ (ez + 1074) ->
  match binary_round_aux prec emax sx (Zpos mz) ez loc_Exact with
  | S754_infinity _ => True
  | S754_finite _ m e => 2 ^ (K + 1074) <= Zpos m * 2 ^ (e + 1074)
  | _ => False
  end.
Proof.
  intros Hez HK H.
  destruct (binary_round_aux_exact sx mz ez) as (m2 & [Hlo Hhi] & Hexact & ->).
  destruct (round_step_lower mz ez K m2 Hez HK H Hlo) as [Hm2 H2].
  set (e1 := ez + rshift (Zpos mz) ez) in *.
  assert (He1 : -1074 <= e1) by (pose proof (rshift_nonneg (Zpos mz) ez); unfold e1; lia).
  destruct (renorm_lower m2 e1 K Hm2 He1 H2) as [Hm3 H3].
  set (e3 := e1 + rshift m2 e1) in *.
  destruct (m2 / 2 ^ rshift m2 e1) as [| m | m]; [lia | | lia].
  destruct (e3 <=? emax - prec); [exact H3 | exact I].
Qed.

(** The value of [shl_align] is the value of its argument. *)
Lemma shl_align_value (m : positive) (e t : Z) :
  -1074 <= e -> -1074 <= t ->
  Zpos (fst (shl_align m e t)) * 2 ^ (snd (shl_align m e t) + 1074) =
    Zpos m * 2 ^ (e + 1074) /\
  -1074 <= snd (shl_align m e t) /\
  snd (shl_align m e t) = Z.min e t.
Proof.
  intros He Ht. unfold shl_align.
  destruct (t - e) as [| d | d] eqn:E; cbn [fst snd].
  - repeat split; lia.
  - repeat split; lia.
  - assert (Hd : e = t + Zpos d) by lia.
    repeat split; try lia.
    assert (Ei : Zpos (Pos.iter xO m d) = Zpos m * 2 ^ Zpos d).
    { clear. induction d as [| d IH] using Pos.peano_ind.
      - cbn. lia.
      - rewrite Pos.iter_succ, Pos2Z.inj_succ, Z.pow_succ_r, (Pos2Z.inj_xO _), IH by lia.
        lia. }
    rewrite Ei, Hd.
    replace (t + Zpos d + 1074) with (Zpos d + (t + 1074)) by lia.
    rewrite (Z.pow_add_r 2 (Zpos d)) by lia. lia.
Qed.

Lemma fexp64_ge (e : Z) : -1074 <= fexp64 e.
Proof. unfold fexp, emin, prec, emax. lia. Qed.

Lemma binary_round_upper (sx : bool) (m : positive) (e K : Z) :
  -1074 <= e -> -1074 <= K <= 971 ->
  Zpos m * 2 ^ (e + 1074) <= 2 ^ (K + 1074) ->
  match binary_round prec emax sx m e with
  | S754_zero _ => True
  | S754_finite _ m' e' => Zpos m' * 2 ^ (e' + 1074) <= 2 ^ (K + 1074)
  | _ => False
  end.
Proof.
  intros He HK H. unfold binary_round.
  destruct (shl_align_value m e (fexp64 (Zpos (digits2_pos m) + e)) He (fexp64_ge _))
    as (Ev & Hge & _).
  destruct (shl_align m e _) as [mz ez]. cbn [fst snd] in Ev, Hge.
  apply binary_round_aux_upper; [exact Hge | exact HK | now rewrite Ev].
Qed.

Lemma binary_round_lower (sx : bool) (m : positive) (e K : Z) :
  -1074 <= e -> -1074 <= K ->
  2 ^ (K + 1074) <= Zpos m * 2 ^ (e + 1074) ->
  match binary_round prec emax sx m e with
  | S754_infinity _ => True
  | S754_finite _ m' e' => 2 ^ (K + 1074) <= Zpos m' * 2 ^ (e' + 1074)
  | _ => False
  end.
Proof.
  intros He HK H. unfold binary_round.
  destruct (shl_align_value m e (fexp64 (Zpos (digits2_pos m) + e)) He (fexp64_ge _))
    as (Ev & Hge & _).
  destruct (shl_align m e _) as [mz ez]. cbn [fst snd] in Ev, Hge.
  apply binary_round_aux_lower; [exact Hge | exact HK | now rewrite Ev].
Qed.

Lemma binary_normalize_upper (D e K : Z) :
  -1074 <= e -> -1074 <= K <= 971 ->
  Z.abs D * 2 ^ (e + 1074) <= 2 ^ (K + 1074) ->
  match binary_normalize prec emax D e false with
  | S754_zero _ => True
  | S754_finite _ m' e' => Zpos m' * 2 ^ (e' + 1074) <= 2 ^ (K + 1074)
  | _ => False
  end.
Proof.
  intros He HK H.
  destruct D as [| m | m]; cbn [binary_normalize]; [exact I | |];
    apply binary_round_upper; assumption.
Qed.

Lemma binary_normalize_lower (D e K : Z) :
  -1074 <= e -> -1074 <= K ->
  2 ^ (K + 1074) <= Z.abs D * 2 ^ (e + 1074) ->
  match binary_normalize prec emax D e false with
  | S754_infinity _ => True
  | S754_finite _ m' e' => 2 ^ (K + 1074) <= Zpos m' * 2 ^ (e' + 1074)
  | _ => False
  end.
Proof.
  intros He HK H.
  destruct D as [| m | m]; cbn [binary_normalize];
    [| apply binary_round_lower; assumption ..].
  assert (0 < 2 ^ (K + 1074)) by (apply pow2_pos; lia).
  cbn in H. lia.
Qed.

Lemma valid_finite (s : bool) (m : positive) (e : Z) :
  valid_binary (S754_finite s m e) = true ->
  -1074 <= e <= 971 /\
  Zpos (digits2_pos m) <= 53 /\
  (e = -1074 \/ Zpos (digits2_pos m) = 53).
Proof.
  cbn [valid_binary]. unfold bounded, canonical_mantissa.
  intros H. apply andb_prop in H as [Hc Hb].
  apply Z.eqb_eq in Hc. apply Z.leb_le in Hb.
  unfold fexp, emin, prec, emax in *. lia.
Qed.

Lemma SFsub_units (sx sy : bool) (mx my : positive) (ex ey : Z) :
  -1074 <= ex -> -1074 <= ey ->
  (cond_Zopp sx (Zpos (fst (shl_align mx ex (Z.min ex ey)))) -
   cond_Zopp sy (Zpos (fst (shl_align my ey (Z.min ex ey))))) * 2 ^ (Z.min ex ey + 1074) =
  SFunits (S754_finite sx mx ex) - SFunits (S754_finite sy my ey).
Proof.
  intros Hx Hy.
  destruct (shl_align_value mx ex (Z.min ex ey)) as (Ex & _ & Sx); [lia | lia |].
  destruct (shl_align_value my ey (Z.min ex ey)) as (Ey & _ & Sy); [lia | lia |].
  rewrite Sx in Ex. rewrite Sy in Ey.
  replace (Z.min ex (Z.min ex ey)) with (Z.min ex ey) in Ex by lia.
  replace (Z.min ey (Z.min ex ey)) with (Z.min ex ey) in Ey by lia.
  cbn [SFunits]. rewrite <- Ex, <- Ey.
  destruct sx, sy; cbn [cond_Zopp]; lia.
Qed.

Lemma SFsub_upper (X Y : spec_float) (K : Z) :
  valid_binary X = true -> valid_binary Y = true ->
  SFfinite X = true -> SFfinite Y = true ->
  -1074 <= K <= 971 ->
  Z.abs (SFunits X - SFunits Y) <= 2 ^ (K + 1074) ->
  match SF64sub X Y with
  | S754_zero _ => True
  | S754_finite _ m e => Zpos m * 2 ^ (e + 1074) <= 2 ^ (K + 1074)
  | _ => False
  end.
Proof.
  intros VX VY FX FY HK H.
  destruct X as [sx | sx | | sx mx ex]; try discriminate FX;
    destruct Y as [sy | sy | | sy my ey]; try discriminate FY.
  - destruct sx, sy; exact I.
  - cbn [SF64sub SFsub]. cbn [SFunits] in H.
    destruct sy; cbn [cond_Zopp] in H; lia.
  - cbn [SF64sub SFsub]. cbn [SFunits] in H.
    destruct sx; cbn [cond_Zopp] in H; lia.
  - destruct (valid_finite _ _ _ VX) as (Hex & _).
    destruct (valid_finite _ _ _ VY) as (Hey & _).
    unfold SF64sub, SFsub.
    apply binary_normalize_upper; [lia | exact HK |].
    rewrite <- (Z.abs_eq (2 ^ (Z.min ex ey + 1074))) by (apply Z.pow_nonneg; lia).
    rewrite <- Z.abs_mul, SFsub_units by lia. exact H.
Qed.

Lemma SFsub_lower (X Y : spec_float) (K : Z) :
  valid_binary X = true -> valid_binary Y = true ->
  SFfinite X = true -> SFfinite Y = true ->
  -1074 <= K ->
  2 ^ (K + 1074) <= Z.abs (SFunits X - SFunits Y) ->
  match SF64sub X Y with
  | S754_infinity _ => True
  | S754_finite _ m e => 2 ^ (K + 1074) <= Zpos m * 2 ^ (e + 1074)
  | _ => False
  end.
Proof.
  intros VX VY FX FY HK H.
  assert (Hpos : 0 < 2 ^ (K + 1074)) by (apply pow2_pos; lia).
  destruct X as [sx | sx | | sx mx ex]; try discriminate FX;
    destruct Y as [sy | sy | | sy my ey]; try discriminate FY.
  - cbn in H. lia.
  - cbn [SF64sub SFsub]. cbn [SFunits] in H.
    destruct sy; cbn [cond_Zopp] in H; lia.
  - cbn [SF64sub SFsub]. cbn [SFunits] in H.
    destruct sx; cbn [cond_Zopp] in H; lia.
  - destruct (valid_finite _ _ _ VX) as (Hex & _).
    destruct (valid_finite _ _ _ VY) as (Hey & _).
    unfold SF64sub, SFsub.
    apply binary_normalize_lower; [lia | exact HK |].
    rewrite <- (Z.abs_eq (2 ^ (Z.min ex ey + 1074))) by (apply Z.pow_nonneg; lia).
    rewrite <- Z.abs_mul, SFsub_units by lia. exact H.
Qed.


Lemma SFleb_epsilon_upper (r : spec_float) (K : Z) :
  K = -52 ->
  valid_binary r = true ->
  match r with
  | S754_zero _ => True
  | S754_finite _ m e => Zpos m * 2 ^ (e + 1074) <= 2 ^ (K + 1074)
  | _ => False
  end ->
  SFleb (SFabs r) SFepsilon = true.
Proof.
  intros HK V H. destruct r as [s | s | | s m e]; try contradiction; [reflexivity |].
  destruct (valid_finite _ _ _ V) as (He & Hd & Hn).
  pose proof (digits2_pos_bounds m) as [Hlo _].
  unfold SFleb, SFcompare, SFabs, SFepsilon.
  assert (He' : 0 <= e + 1074) by (clear - He; lia).
  destruct (Z.compare_spec e (-104)) as [Heq | Hlt | Hgt]; [| reflexivity |].
  - destruct (Pos.compare_cont Eq m 4503599627370496) eqn:Ec; try reflexivity.
    exfalso.
    assert (Hm : (4503599627370496 < m)%positive) by (apply Pos.gt_lt; exact Ec).
    assert (EK : K + 1074 = 52 + (e + 1074)) by (clear - HK Heq; lia).
    rewrite EK, (Z.pow_add_r 2 52) in H by (clear - He'; lia).
    apply Z.mul_le_mono_pos_r in H; [| apply pow2_pos; exact He'].
    change (2 ^ 52) with 4503599627370496 in H.
    clear - H Hm; lia.
  - exfalso.
    assert (Ed : Zpos (digits2_pos m) = 53) by (clear - Hn Hgt; lia).
    rewrite Ed in Hlo.
    assert (H1 : 2 ^ (K + 1074) < 2 ^ (52 + (e + 1074)))
      by (apply pow2_lt; clear - HK Hgt; lia).
    assert (H2 : 2 ^ (52 + (e + 1074)) <= Zpos m * 2 ^ (e + 1074)).
    { rewrite (Z.pow_add_r 2 52 (e + 1074)) by (clear - He'; lia).
      apply Z.mul_le_mono_nonneg_r; [apply Z.pow_nonneg; clear; lia | exact Hlo]. }
    exact (Z.lt_irrefl _ (Z.lt_le_trans _ _ _ H1 (Z.le_trans _ _ _ H2 H))).
Qed.

Lemma SFleb_epsilon_lower (r : spec_float) (K : Z) :
  K = -51 ->
  valid_binary r = true ->
  match r with
  | S754_infinity _ => True
  | S754_finite _ m e => 2 ^ (K + 1074) <= Zpos m * 2 ^ (e + 1074)
  | _ => False
  end ->
  SFleb (SFabs r) SFepsilon = false.
Proof.
  intros HK V H. destruct r as [s | s | | s m e]; try contradiction; [reflexivity |].
  destruct (valid_finite _ _ _ V) as (He & Hd & Hn).
  pose proof (digits2_pos_bounds m) as [_ Hhi].
  unfold SFleb, SFcompare, SFabs, SFepsilon.
  destruct (Z.compare_spec e (-104)) as [Heq | Hlt | Hgt]; [| | reflexivity].
  - destruct (Pos.compare_cont Eq m 4503599627370496) eqn:Ec; try reflexivity; exfalso.
    all: assert (Hm : Zpos m <= 4503599627370496)
      by (apply Pos2Z.pos_le_pos; unfold Pos.le, Pos.compare; rewrite Ec; discriminate).
    all: assert (EK : K + 1074 = 53 + (e + 1074)) by (clear - HK Heq; lia).
    all: assert (He' : 0 <= e + 1074) by (clear - He; lia).
    all: rewrite EK, (Z.pow_add_r 2 53) in H by (clear - He'; lia).
    all: apply Z.mul_le_mono_pos_r in H; [| apply pow2_pos; exact He'].
    all: change (2 ^ 53) with 9007199254740992 in H.
    all: clear - H Hm; lia.
  - exfalso.
    assert (Hm : Zpos m < 2 ^ 53).
    { eapply Z.lt_le_trans; [exact Hhi | apply pow2_le; clear - Hd; lia]. }
    assert (He' : 0 <= e + 1074) by (clear - He; lia).
    assert (H1 : Zpos m * 2 ^ (e + 1074) < 2 ^ (53 + (e + 1074))).
    { rewrite (Z.pow_add_r 2 53 (e + 1074)) by (clear - He'; lia).
      apply Z.mul_lt_mono_pos_r; [apply pow2_pos; exact He' | exact Hm]. }
    assert (H2 : 2 ^ (53 + (e + 1074)) <= 2 ^ (K + 1074))
      by (apply pow2_le; clear - HK Hlt; lia).
    exact (Z.lt_irrefl _ (Z.lt_le_trans _ _ _ H1 (Z.le_trans _ _ _ H2 H))).
Qed.

Lemma units_epsilon : units epsilon = 2 ^ (-52 + 1074).
Proof.
  unfold units.
  change (Prim2SF epsilon) with SFepsilon.
  unfold SFepsilon, SFunits, cond_Zopp.
  change (Zpos 4503599627370496) with (2 ^ 52).
  rewrite <- Z.pow_add_r by lia.
  f_equal.
Qed.

Lemma finite_SFfinite (x : float) : is_finite x = true -> SFfinite (Prim2SF x) = true.
Proof.
  intros H. destruct (finite_cases x H) as [[s ->] | (s & m & e & ->)]; reflexivity.
Qed.

(** Two finite doubles whose values differ by at most [epsilon] pass the
    test [fabs(x - y) <= epsilon]. *)
Lemma sub_within_epsilon (x y : float) :
  is_finite x = true -> is_finite y = true ->
  Z.abs (units x - units y) <= units epsilon ->
  (abs (x - y) <=? epsilon)%float = true.
Proof.
  intros Hx Hy H.
  rewrite leb_spec, abs_spec.
  change (Prim2SF epsilon) with SFepsilon.
  apply (SFleb_epsilon_upper _ (-52) eq_refl); [apply Prim2SF_valid |].
  rewrite sub_spec.
  apply SFsub_upper; try apply Prim2SF_valid; try (apply finite_SFfinite; assumption).
  - lia.
  - rewrite <- units_epsilon. exact H.
Qed.

(** Two finite doubles whose values differ by at least twice [epsilon] fail
    the test [fabs(x - y) <= epsilon]. *)
Lemma sub_beyond_epsilon (x y : float) :
  is_finite x = true -> is_finite y = true ->
  2 * units epsilon <= Z.abs (units x - units y) ->
  (abs (x - y) <=? epsilon)%float = false.
Proof.
  intros Hx Hy H.
  rewrite leb_spec, abs_spec.
  change (Prim2SF epsilon) with SFepsilon.
  apply (SFleb_epsilon_lower _ (-51) eq_refl); [apply Prim2SF_valid |].
  rewrite sub_spec.
  apply SFsub_lower; try apply Prim2SF_valid; try (apply finite_SFfinite; assumption).
  - lia.
  - replace (-51 + 1074) with (Z.succ (-52 + 1074)) by reflexivity.
    rewrite Z.pow_succ_r, <- units_epsilon by lia. exact H.
Qed.

End Rounding.

(** ** The default isometry *)

(** C9, as amended: the default isometry has the zero matrix (which
    [Matrix3::operator==] tells apart from the identity) as its rotation and
    the zero vector as its translation, its [inverse] throws the runtime
    error of a singular matrix, and its [transform] sends every point whose
    components are finite to the zero vector. *)
Theorem default_isometry_degenerate (p : Vector3) :
  Vector3.finite p = true ->
  Isometry.rotation Isometry.default = Matrix3.mk 0 0 0 0 0 0 0 0 0 /\
  Matrix3.eqb (Isometry.rotation Isometry.default) Matrix3.kIdentity = Ok false /\
  Isometry.translation Isometry.default = Vector3.mk 0 0 0 /\
  Isometry.inverse Isometry.default = Throw (runtime_error "Matrix is non-invertible") /\
  Isometry.transform Isometry.default p = Vector3.mk 0 0 0.
Proof.
  intros Hp. repeat split.
  unfold Isometry.transform, Matrix3.mul_vector, Vector3.add, Vector3.add_assign.
  cbn [Isometry.default Isometry.rotation_ Isometry.translation_ Matrix3.kZero Matrix3.mk
       Matrix3.row_0_ Matrix3.row_1_ Matrix3.row_2_ Vector3.default
       Vector3.x Vector3.y Vector3.z].
  now rewrite (zero_dot_finite p Hp).
Qed.

Lemma default_isometry_degenerate_witness :
  Isometry.rotation Isometry.default = Matrix3.mk 0 0 0 0 0 0 0 0 0 /\
  Matrix3.eqb (Isometry.rotation Isometry.default) Matrix3.kIdentity = Ok false /\
  Isometry.translation Isometry.default = Vector3.mk 0 0 0 /\
  Isometry.inverse Isometry.default = Throw (runtime_error "Matrix is non-invertible") /\
  Isometry.transform Isometry.default (Vector3.mk 1 (-2) 0x1.8p+1) = Vector3.mk 0 0 0.
Proof.
  apply (default_isometry_degenerate (Vector3.mk 1 (-2) 0x1.8p+1)).
  vm_compute; reflexivity.
Defined.

(** C9 as stated fails at the point (inf, 0, 0): 0 * inf is a NaN, and the
    default isometry sends the point to (NaN, NaN, NaN), which
    [Vector3::operator==] tells apart from the zero vector. *)
Lemma default_isometry_transform_infinity :
  Isometry.transform Isometry.default (Vector3.mk infinity 0 0) = Vector3.mk nan nan nan /\
  Vector3.eqb (Isometry.transform Isometry.default (Vector3.mk infinity 0 0))
              (Vector3.mk 0 0 0) = false.
Proof. split; vm_compute; reflexivity. Qed.

(** ** Rotation about an axis *)

(** C8: for a C library whose cosine and sine of [M_PI / 2.] are the correctly
    rounded ones and whose [pow] is exact at 0^2 and 1^2,
    rotateAround((0,0,1), M_PI / 2.) transforms (1,0,0) into
    (6.123233995736766e-17, 1, 0), each component of which is within 1e-9 of
    the component of (0,1,0). *)
Theorem quarter_turn_transform
    (cos sin : float -> float) (pow : float -> float -> float) :
  cos pi_2 = cos_pi_2 -> sin pi_2 = 1 -> pow 0 2 = 0 -> pow 1 2 = 1 ->
  exists q : Vector3,
    (i <- Isometry.rotateAround cos sin pow (Vector3.mk 0 0 1) pi_2 ;;
     Ok (Isometry.transform i (Vector3.mk 1 0 0))) = Ok q /\
    q = Vector3.mk cos_pi_2 1 0 /\
    (abs (Vector3.x q - 0) <=? 0x1.12e0be826d695p-30) = true /\
    (abs (Vector3.y q - 1) <=? 0x1.12e0be826d695p-30) = true /\
    (abs (Vector3.z q - 0) <=? 0x1.12e0be826d695p-30) = true.
Proof.
  intros Hcos Hsin Hpow0 Hpow1.
  exists (Vector3.mk cos_pi_2 1 0).
  split; [| repeat split].
  unfold Isometry.rotateAround.
  cbn [Vector3.at_ bind Vector3.x Vector3.y Vector3.z].
  rewrite Hcos, Hsin.
  replace (0 / Vector3.norm (Vector3.mk 0 0 1)) with 0 by (vm_compute; reflexivity).
  replace (1 / Vector3.norm (Vector3.mk 0 0 1)) with 1 by (vm_compute; reflexivity).
  rewrite Hpow0, Hpow1.
  vm_compute; reflexivity.
Qed.

Lemma quarter_turn_transform_witness :
  exists q : Vector3,
    (i <- Isometry.rotateAround (fun _ => cos_pi_2) (fun _ => 1) (fun u _ => u * u)
            (Vector3.mk 0 0 1) pi_2 ;;
     Ok (Isometry.transform i (Vector3.mk 1 0 0))) = Ok q /\
    q = Vector3.mk cos_pi_2 1 0 /\
    (abs (Vector3.x q - 0) <=? 0x1.12e0be826d695p-30) = true /\
    (abs (Vector3.y q - 1) <=? 0x1.12e0be826d695p-30) = true /\
    (abs (Vector3.z q - 0) <=? 0x1.12e0be826d695p-30) = true.
Proof.
  apply (quarter_turn_transform (fun _ => cos_pi_2) (fun _ => 1) (fun u _ => u * u));
    vm_compute; reflexivity.
Defined.

(** ** Equality of vectors *)

(** C7, as amended: for a vector [a] whose components are finite, a == a;
    for vectors [a] and [b] whose components are finite and differ by at most
    the machine epsilon in each component, a == b; and for all vectors [a]
    and [b], whatever their other components, a component in which the two
    values differ by at least twice the machine epsilon makes a == b false.
    The differences are the exact ones, counted in units of 2^-1074. A
    component that is a NaN or an infinity in [a] or in [b] makes a == b
    false as well, so the first two parts hold on finite components only. *)
Theorem vector_eqb_tolerance (a b : Vector3) :
  (Vector3.finite a = true -> Vector3.eqb a a = true) /\
  (Vector3.finite a = true -> Vector3.finite b = true ->
   (Z.abs (units (Vector3.x a) - units (Vector3.x b)) <= units epsilon /\
    Z.abs (units (Vector3.y a) - units (Vector3.y b)) <= units epsilon /\
    Z.abs (units (Vector3.z a) - units (Vector3.z b)) <= units epsilon)%Z ->
   Vector3.eqb a b = true) /\
  ((is_finite (Vector3.x a) = true /\ is_finite (Vector3.x b) = true /\
    (2 * units epsilon <= Z.abs (units (Vector3.x a) - units (Vector3.x b)))%Z) \/
   (is_finite (Vector3.y a) = true /\ is_finite (Vector3.y b) = true /\
    (2 * units epsilon <= Z.abs (units (Vector3.y a) - units (Vector3.y b)))%Z) \/
   (is_finite (Vector3.z a) = true /\ is_finite (Vector3.z b) = true /\
    (2 * units epsilon <= Z.abs (units (Vector3.z a) - units (Vector3.z b)))%Z) ->
   Vector3.eqb a b = false) /\
  (Vector3.finite a = false \/ Vector3.finite b = false -> Vector3.eqb a b = false).
Proof.
  unfold Vector3.finite, Vector3.eqb. split; [| split; [| split]].
  - intros Ha.
    apply andb_prop in Ha as [Ha Haz]. apply andb_prop in Ha as [Hax Hay].
    rewrite !sub_diag_finite by assumption. reflexivity.
  - intros Ha Hb (Hx & Hy & Hz).
    apply andb_prop in Ha as [Ha Haz]. apply andb_prop in Ha as [Hax Hay].
    apply andb_prop in Hb as [Hb Hbz]. apply andb_prop in Hb as [Hbx Hby].
    now rewrite !sub_within_epsilon.
  - intros [(Ha & Hb & H) | [(Ha & Hb & H) | (Ha & Hb & H)]];
      rewrite (sub_beyond_epsilon _ _ Ha Hb H), ?andb_false_r; reflexivity.
  - intros [H | H]; apply andb_false_iff in H as [H | H];
      try apply andb_false_iff in H as [H | H].
    all: first
      [ rewrite (not_finite_not_close _ (sub_not_finite_l _ (Vector3.x b) H))
      | rewrite (not_finite_not_close _ (sub_not_finite_l _ (Vector3.y b) H))
      | rewrite (not_finite_not_close _ (sub_not_finite_l _ (Vector3.z b) H))
      | rewrite (not_finite_not_close _ (sub_not_finite_r (Vector3.x a) _ H))
      | rewrite (not_finite_not_close _ (sub_not_finite_r (Vector3.y a) _ H))
      | rewrite (not_finite_not_close _ (sub_not_finite_r (Vector3.z a) _ H)) ].
    all: rewrite ?andb_false_r; reflexivity.
Qed.

Lemma vector_eqb_tolerance_witness :
  Vector3.eqb (Vector3.mk 1 2 3) (Vector3.mk 1 2 3) = true /\
  Vector3.eqb (Vector3.mk 1 2 3) (Vector3.mk (1 + epsilon) 2 3) = true /\
  Vector3.eqb (Vector3.mk 1 nan infinity) (Vector3.mk (1 + 2 * epsilon) nan infinity) = false /\
  Vector3.eqb (Vector3.mk 1 2 infinity) (Vector3.mk 1 2 infinity) = false.
Proof.
  split; [| split; [| split]].
  - exact (proj1 (vector_eqb_tolerance (Vector3.mk 1 2 3) (Vector3.mk 1 2 3)) eq_refl).
  - apply (proj1 (proj2 (vector_eqb_tolerance
                           (Vector3.mk 1 2 3) (Vector3.mk (1 + epsilon) 2 3)))
             eq_refl eq_refl).
    repeat split; apply Z.leb_le; vm_compute; reflexivity.
  - apply (proj1 (proj2 (proj2 (vector_eqb_tolerance
                                  (Vector3.mk 1 nan infinity)
                                  (Vector3.mk (1 + 2 * epsilon) nan infinity))))).
    left. split; [reflexivity | split; [reflexivity |]].
    apply Z.leb_le; vm_compute; reflexivity.
  - apply (proj2 (proj2 (proj2 (vector_eqb_tolerance
                                  (Vector3.mk 1 2 infinity) (Vector3.mk 1 2 infinity))))).
    left. reflexivity.
Defined.

(** C7 as stated fails at a vector with a NaN component, and at one with an
    infinite component: x - x is then a NaN, and no comparison with a NaN
    holds. *)
Lemma eqb_not_reflexive_at_nan :
  Vector3.eqb (Vector3.mk nan 0 0) (Vector3.mk nan 0 0) = false /\
  Vector3.eqb (Vector3.mk infinity 0 0) (Vector3.mk infinity 0 0) = false.
Proof. split; vm_compute; reflexivity. Qed.

(** C10: with eps the machine epsilon, (0,0,0) == (eps,0,0) and
    (eps,0,0) == (2 eps,0,0) hold and (0,0,0) == (2 eps,0,0) does not:
    [Vector3::operator==] is not transitive. *)
Theorem eqb_not_transitive :
  Vector3.eqb (Vector3.mk 0 0 0) (Vector3.mk epsilon 0 0) = true /\
  Vector3.eqb (Vector3.mk epsilon 0 0) (Vector3.mk (2 * epsilon) 0 0) = true /\
  Vector3.eqb (Vector3.mk 0 0 0) (Vector3.mk (2 * epsilon) 0 0) = false /\
  exists a b c : Vector3,
    Vector3.eqb a b = true /\ Vector3.eqb b c = true /\ Vector3.eqb a c = false.
Proof.
  repeat split; try (vm_compute; reflexivity).
  exists (Vector3.mk 0 0 0), (Vector3.mk epsilon 0 0), (Vector3.mk (2 * epsilon) 0 0).
  repeat split; vm_compute; reflexivity.
Qed.


(** * Further properties of the code *)

(** ** Rows and columns *)

(** [row(i)] throws the [std::out_of_range] of [Matrix3] when [i] is outside
    [0,2]; [col(j)] throws the one of [Vector3], since it indexes the three
    rows; and in range the component [i] of column [j] is the component [j] of
    row [i]. *)
Theorem row_col_access (m : Matrix3) (i j : Z) :
  Matrix3.row m i =
    (if in_range i
     then Ok (nth (Z.to_nat i) [Matrix3.row_0_ m; Matrix3.row_1_ m; Matrix3.row_2_ m]
                  Vector3.default)
     else Throw (out_of_range "Matrix3 has only 3 elements")) /\
  Matrix3.col m j =
    (if in_range j
     then Ok (Vector3.mk
                (nth (Z.to_nat j) [Vector3.x (Matrix3.row_0_ m); Vector3.y (Matrix3.row_0_ m);
                                   Vector3.z (Matrix3.row_0_ m)] 0)
                (nth (Z.to_nat j) [Vector3.x (Matrix3.row_1_ m); Vector3.y (Matrix3.row_1_ m);
                                   Vector3.z (Matrix3.row_1_ m)] 0)
                (nth (Z.to_nat j) [Vector3.x (Matrix3.row_2_ m); Vector3.y (Matrix3.row_2_ m);
                                   Vector3.z (Matrix3.row_2_ m)] 0))
     else Throw (out_of_range "Vector3 has only 3 elements")) /\
  (c <- Matrix3.col m j ;; Vector3.at_ c i) =
    (if in_range j && in_range i
     then r <- Matrix3.row m i ;; Vector3.at_ r j
     else Throw (out_of_range "Vector3 has only 3 elements")).
Proof.
  unfold Matrix3.row, Matrix3.col.
  destruct (index_cases i) as [[[-> | [-> | ->]] _] | (Hi & Hvi & _ & Hmi & _)];
    destruct (index_cases j) as [[[-> | [-> | ->]] _] | (Hj & Hvj & _ & _ & _)].
  all: rewrite ?Hmi, ?Hvj, ?Hi, ?Hj; cbn; rewrite ?Hvi.
  all: repeat split; reflexivity.
Qed.

(** ** The two matrix-vector products *)

(** [Matrix3::product(const Vector3&)], which fills a [std::array] in a loop,
    never throws and returns what [Matrix3::operator*(const Vector3&)]
    returns; so [Isometry::operator*(const Vector3&)] never throws and returns
    what [Isometry::transform] returns. *)
Theorem product_vector_is_mul_vector (m : Matrix3) (i : Isometry) (v : Vector3) :
  Matrix3.product_vector m v = Ok (Matrix3.mul_vector m v) /\
  Isometry.mul_vector i v = Ok (Isometry.transform i v).
Proof. split; reflexivity. Qed.

(** ** Composition in closed form *)

(** [compose], [operator*] and [operator*=] never throw and give the same
    isometry: its translation is the row-by-column product of the first
    rotation with the second translation plus the first translation, and each
    entry of its rotation is the product of the two entries at that place. *)
Theorem composition_closed_form
    (t1 t2 : Vector3) (a1 a2 a3 b1 b2 b3 c1 c2 c3 : float)
    (d1 d2 d3 e1 e2 e3 f1 f2 f3 : float) :
  let A := Isometry.mk t1 (Matrix3.mk a1 a2 a3 b1 b2 b3 c1 c2 c3) in
  let B := Isometry.mk t2 (Matrix3.mk d1 d2 d3 e1 e2 e3 f1 f2 f3) in
  let AB :=
    Isometry.mk
      (Vector3.mk
         (a1 * Vector3.x t2 + a2 * Vector3.y t2 + a3 * Vector3.z t2 + Vector3.x t1)
         (b1 * Vector3.x t2 + b2 * Vector3.y t2 + b3 * Vector3.z t2 + Vector3.y t1)
         (c1 * Vector3.x t2 + c2 * Vector3.y t2 + c3 * Vector3.z t2 + Vector3.z t1))
      (Matrix3.mk (a1 * d1) (a2 * d2) (a3 * d3)
                  (b1 * e1) (b2 * e2) (b3 * e3)
                  (c1 * f1) (c2 * f2) (c3 * f3)) in
  Isometry.mul A B = Ok AB /\
  Isometry.compose A B = Ok AB /\
  Isometry.mul_assign A B = Ok AB.
Proof. repeat split; reflexivity. Qed.

(** ** The inverse against the adjugate *)

(** Whatever the matrix, [inverse] either throws or returns the adjugate
    divided by the determinant with one entry replaced: the entry in the third
    row and second column is -(a*h - b*h) / det instead of -(a*h - b*g) / det,
    where a, b are the first two entries of the first row and g, h those of
    the third. *)
Theorem inverse_is_adjugate_but_one_entry
    (a b c d e f g h k : float) :
  let m := Matrix3.mk a b c d e f g h k in
  exists det : float,
    Matrix3.det m = Ok det /\
    (Matrix3.inverse m = Throw (runtime_error "Matrix is non-invertible") \/
     Matrix3.inverse m =
       Ok (Matrix3.mk_rows
             (Matrix3.row_0_ (Spec.inverse m det))
             (Matrix3.row_1_ (Spec.inverse m det))
             (Vector3.mk (Vector3.x (Matrix3.row_2_ (Spec.inverse m det)))
                         (- (a * h - b * h) * (1 / det))
                         (Vector3.z (Matrix3.row_2_ (Spec.inverse m det)))))).
Proof.
  intros m. eexists. split; [apply det_rows |].
  unfold Matrix3.inverse, m. rewrite det_rows. cbn [bind].
  destruct (abs _ <? _); [left; reflexivity | right; reflexivity].
Qed.

(** ** The inverse of an isometry *)

(** [Isometry::inverse] throws exactly when the determinant of the rotation is
    below 0.000001 in absolute value, always the runtime error of
    [Matrix3::inverse]; otherwise it returns the inverse R' of the rotation
    that [Matrix3::inverse] computes, with the translation -1 * (R' . t). *)
Theorem isometry_inverse_throws_iff (i : Isometry) :
  exists d : float,
    Matrix3.det (Isometry.rotation i) = Ok d /\
    (Isometry.inverse i = Throw (runtime_error "Matrix is non-invertible") <->
     (abs d <? 0x1.0c6f7a0b5ed8dp-20) = true) /\
    (forall e, Isometry.inverse i = Throw e ->
               e = runtime_error "Matrix is non-invertible") /\
    ((abs d <? 0x1.0c6f7a0b5ed8dp-20) = false <->
     exists inv_rot : Matrix3,
       Matrix3.inverse (Isometry.rotation i) = Ok inv_rot /\
       Isometry.inverse i =
         Ok (Isometry.mk
               (Vector3.scalar_mul (-1) (Matrix3.mul_vector inv_rot (Isometry.translation i)))
               inv_rot)).
Proof.
  destruct i as [r t].
  destruct (matrix_eta r) as (a1 & a2 & a3 & b1 & b2 & b3 & c1 & c2 & c3 & ->).
  eexists. split; [apply det_rows |].
  unfold Isometry.inverse, Matrix3.inverse.
  cbn [Isometry.rotation Isometry.rotation_ Isometry.translation Isometry.translation_].
  rewrite det_rows. cbn [bind].
  destruct (abs _ <? _); cbn [bind].
  - split; [split; reflexivity |]. split.
    + intros e H; inversion H; reflexivity.
    + split; [discriminate | intros (inv_rot & H & _); discriminate H].
  - split; [split; discriminate |]. split.
    + intros e H; discriminate H.
    + split; [intros _ | reflexivity].
      eexists. split; reflexivity.
Qed.

(** ** Symmetry of the equality test *)

Lemma binary_round_aux_sign (m e : Z) (l : location) :
  binary_round_aux prec emax true m e l = SFopp (binary_round_aux prec emax false m e l).
Proof.
  unfold binary_round_aux.
  destruct (shr_fexp prec emax m e l) as [mrs' e'].
  destruct (shr_fexp prec emax _ e' loc_Exact) as [mrs'' e''].
  destruct (shr_m mrs''); [reflexivity | | reflexivity].
  destruct (e'' <=? emax - prec)%Z; reflexivity.
Qed.

Lemma binary_round_sign (m : positive) (e : Z) :
  binary_round prec emax true m e = SFopp (binary_round prec emax false m e).
Proof.
  unfold binary_round.
  destruct (shl_align m e _) as [mz ez].
  apply binary_round_aux_sign.
Qed.

(** Swapping the operands of a subtraction changes the sign of the result,
    unless both results are +0. *)
Lemma SFsub_antisym (X Y : spec_float) :
  SF64sub Y X = SFopp (SF64sub X Y) \/
  SF64sub X Y = S754_zero false /\ SF64sub Y X = S754_zero false.
Proof.
  destruct X as [sx | sx | | sx mx ex], Y as [sy | sy | | sy my ey];
    try (left; reflexivity);
    try (destruct sx, sy; (left; reflexivity) || (right; split; reflexivity)).
  unfold SF64sub, SFsub.
  - rewrite (Z.min_comm ey ex).
    set (zx := cond_Zopp sx (Zpos (fst (shl_align mx ex (Z.min ex ey))))).
    set (zy := cond_Zopp sy (Zpos (fst (shl_align my ey (Z.min ex ey))))).
    replace (zy - zx)%Z with (- (zx - zy))%Z by lia.
    destruct (zx - zy)%Z as [| p | p]; cbn [Z.opp binary_normalize].
    + right. split; reflexivity.
    + left. apply binary_round_sign.
    + left. rewrite binary_round_sign. destruct (binary_round prec emax false p _) as [[] | [] | | [] ? ?]; reflexivity.
Qed.

Lemma abs_sub_sym (x y : float) : abs (y - x) = abs (x - y).
Proof.
  apply Prim2SF_inj. rewrite !abs_spec, !sub_spec.
  destruct (SFsub_antisym (Prim2SF x) (Prim2SF y)) as [-> | [-> ->]]; [| reflexivity].
  destruct (SF64sub (Prim2SF x) (Prim2SF y)); reflexivity.
Qed.

(** [Vector3::operator==] is symmetric on all vectors, also on those with NaN
    or infinite components; so are [Matrix3::operator==] and
    [Isometry::operator==], which never throw. *)
Theorem eqb_symmetric (a b : Vector3) (m n : Matrix3) (i j : Isometry) :
  Vector3.eqb a b = Vector3.eqb b a /\
  Matrix3.eqb m n = Matrix3.eqb n m /\
  Isometry.eqb i j = Isometry.eqb j i /\
  (exists r, Matrix3.eqb m n = Ok r) /\
  (exists r, Isometry.eqb i j = Ok r).
Proof.
  assert (V : forall u v, Vector3.eqb u v = Vector3.eqb v u).
  { intros u v. unfold Vector3.eqb.
    now rewrite (abs_sub_sym (Vector3.x u)), (abs_sub_sym (Vector3.y u)),
      (abs_sub_sym (Vector3.z u)). }
  assert (M : forall p q, Matrix3.eqb p q = Matrix3.eqb q p).
  { intros p q. unfold Matrix3.eqb. cbn [Matrix3.at_ bind].
    rewrite (V (Matrix3.row_0_ p)), (V (Matrix3.row_1_ p)), (V (Matrix3.row_2_ p)).
    reflexivity. }
  assert (T : forall p q, exists r, Matrix3.eqb p q = Ok r).
  { intros p q. unfold Matrix3.eqb. cbn [Matrix3.at_ bind].
    destruct (Vector3.eqb _ _); [| eauto].
    destruct (Vector3.eqb _ _); eauto. }
  split; [apply V |]. split; [apply M |]. split; [| split; [apply T |]].
  - unfold Isometry.eqb. rewrite (M (Isometry.rotation_ i)), (V (Isometry.translation_ i)).
    reflexivity.
  - unfold Isometry.eqb. destruct (T (Isometry.rotation_ i) (Isometry.rotation_ j)) as [r ->].
    cbn [bind]. destruct r; eauto.
Qed.

(** ** Algebra of binary64 operations *)

Lemma mul_comm (x y : float) : x * y = y * x.
Proof.
  apply Prim2SF_inj. rewrite !mul_spec. unfold SF64mul, SFmul.
  destruct (Prim2SF x) as [sx | sx | | sx mx ex], (Prim2SF y) as [sy | sy | | sy my ey];
    try reflexivity; rewrite (xorb_comm sx sy); try reflexivity.
  now rewrite (Pos.mul_comm mx my), (Z.add_comm ex ey).
Qed.

Lemma add_comm (x y : float) : x + y = y + x.
Proof.
  apply Prim2SF_inj. rewrite !add_spec. unfold SF64add, SFadd.
  destruct (Prim2SF x) as [sx | sx | | sx mx ex], (Prim2SF y) as [sy | sy | | sy my ey];
    try reflexivity; try (destruct sx, sy; reflexivity).
  rewrite (Z.min_comm ey ex). f_equal. apply Z.add_comm.
Qed.

Lemma opp_involutive (x : float) : - - x = x.
Proof.
  apply Prim2SF_inj. rewrite !opp_spec.
  destruct (Prim2SF x) as [s | s | | s m e]; cbn; now rewrite ?negb_involutive.
Qed.

Lemma digits2_pos_unique (m : positive) (d : Z) :
  (2 ^ (d - 1) <= Zpos m < 2 ^ d)%Z -> Zpos (digits2_pos m) = d.
Proof.
  intros [Hlo Hhi].
  destruct (digits2_pos_bounds m) as [Hlo' Hhi'].
  set (d' := Zpos (digits2_pos m)) in *.
  assert (Hd' : (0 < d')%Z) by (unfold d'; lia).
  assert (Hd : (0 < d)%Z).
  { destruct (Z_lt_le_dec 0 d) as [H | H]; [exact H | exfalso].
    assert (2 ^ d <= 2 ^ 0)%Z by (apply pow2_le; lia).
    change (2 ^ 0)%Z with 1%Z in *. lia. }
  destruct (Z.lt_trichotomy d d') as [H | [H | H]]; [exfalso | symmetry; exact H | exfalso].
  - assert (2 ^ d <= 2 ^ (d' - 1))%Z by (apply pow2_le; lia).
    exact (Z.lt_irrefl _ (Z.lt_le_trans _ _ _ Hhi (Z.le_trans _ _ _ H0 Hlo'))).
  - assert (2 ^ d' <= 2 ^ (d - 1))%Z by (apply pow2_le; lia).
    exact (Z.lt_irrefl _ (Z.lt_le_trans _ _ _ Hhi' (Z.le_trans _ _ _ H0 Hlo))).
Qed.

(** Multiplying a double by 1 or by -1 is exact. *)
Lemma SFmul_unit (s sx : bool) (mx : positive) (ex : Z) :
  valid_binary (S754_finite sx mx ex) = true ->
  SF64mul (S754_finite sx mx ex) (S754_finite s 4503599627370496 (-52)) =
  S754_finite (xorb sx s) mx ex.
Proof.
  intros V. destruct (valid_finite _ _ _ V) as (He & Hd & Hn).
  destruct (digits2_pos_bounds mx) as [Hlo Hhi].
  unfold SF64mul, SFmul.
  destruct (binary_round_aux_exact (xorb sx s) (mx * 4503599627370496) (ex + -52))
    as (m2 & _ & Hexact & ->).
  assert (Em : Zpos (mx * 4503599627370496) = (Zpos mx * 2 ^ 52)%Z) by reflexivity.
  assert (Ed : Zpos (digits2_pos (mx * 4503599627370496)) = (Zpos (digits2_pos mx) + 52)%Z).
  { apply digits2_pos_unique. rewrite Em.
    replace (Zpos (digits2_pos mx) + 52 - 1)%Z with (Zpos (digits2_pos mx) - 1 + 52)%Z by lia.
    rewrite !Z.pow_add_r by lia.
    split; [apply Z.mul_le_mono_nonneg_r | apply Z.mul_lt_mono_pos_r]; lia. }
  assert (Es : rshift (Zpos (mx * 4503599627370496)) (ex + -52) = 52%Z).
  { unfold rshift. cbn [Zdigits2]. rewrite Ed.
    unfold fexp, emin, prec, emax. clear - He Hd Hn. lia. }
  rewrite Es in *.
  assert (E2 : m2 = Zpos mx).
  { rewrite Hexact; rewrite Em; [apply Z.div_mul | apply Z.mod_mul]; lia. }
  subst m2.
  assert (Es2 : rshift (Zpos mx) (ex + -52 + 52) = 0%Z).
  { unfold rshift. cbn [Zdigits2].
    unfold fexp, emin, prec, emax. clear - He Hd Hn. lia. }
  rewrite Es2. change (2 ^ 0)%Z with 1%Z. rewrite Z.div_1_r.
  replace (ex + -52 + 52 + 0)%Z with ex by lia.
  destruct (Z.leb_spec ex (emax - prec)) as [_ | H]; [reflexivity |].
  unfold emax, prec in H. lia.
Qed.

Lemma mul_one_r (x : float) : x * 1 = x.
Proof.
  apply Prim2SF_inj. rewrite mul_spec.
  change (Prim2SF 1) with (S754_finite false 4503599627370496 (-52)).
  pose proof (Prim2SF_valid x) as V.
  destruct (Prim2SF x) as [s | s | | s m e].
  - cbn. now rewrite xorb_false_r.
  - cbn. now rewrite xorb_false_r.
  - reflexivity.
  - rewrite (SFmul_unit false s m e V). now rewrite xorb_false_r.
Qed.

Lemma mul_neg_one_r (x : float) : x * (-1) = - x.
Proof.
  apply Prim2SF_inj. rewrite mul_spec, opp_spec.
  change (Prim2SF (-1)) with (S754_finite true 4503599627370496 (-52)).
  pose proof (Prim2SF_valid x) as V.
  destruct (Prim2SF x) as [s | s | | s m e].
  - cbn. now rewrite xorb_true_r.
  - cbn. now rewrite xorb_true_r.
  - reflexivity.
  - rewrite (SFmul_unit true s m e V). cbn. now rewrite xorb_true_r.
Qed.

(** Equal, or both a zero of either sign. *)
Definition eqz (x y : float) : Prop :=
  x = y \/ is_zero x = true /\ is_zero y = true.

Lemma is_zero_spec (x : float) :
  is_zero x = true <-> exists s, Prim2SF x = S754_zero s.
Proof.
  unfold is_zero. rewrite eqb_spec.
  change (Prim2SF zero) with (S754_zero false).
  destruct (Prim2SF x) as [s | s | | s m e]; cbn; split.
  all: try (intros [t Ht]; discriminate Ht).
  all: try (intros _; now exists s).
  all: try reflexivity; try discriminate.
  all: destruct s; discriminate.
Qed.

Lemma is_zero_finite (x : float) : is_zero x = true -> is_finite x = true.
Proof.
  intros H. apply is_zero_spec in H as [s Hs].
  unfold is_finite, is_nan, is_infinity. rewrite !eqb_spec, abs_spec, Hs. reflexivity.
Qed.

Lemma eqz_refl (x : float) : eqz x x.
Proof. now left. Qed.

Lemma eqz_sym (x y : float) : eqz x y -> eqz y x.
Proof. intros [-> | [? ?]]; [now left | now right]. Qed.

Lemma eqz_trans (x y z : float) : eqz x y -> eqz y z -> eqz x z.
Proof.
  intros [-> | [Hx Hy]] [-> | [Hy' Hz]]; try (now left); now right.
Qed.

Lemma eqz_finite (x y : float) : eqz x y -> is_finite y = true -> is_finite x = true.
Proof. intros [-> | [Hx _]] H; [exact H | now apply is_zero_finite]. Qed.

(** Doubles that are equal up to the sign of zero pass the test
    [fabs(x - y) <= epsilon] when they are finite. *)
Lemma eqz_close (x y : float) :
  eqz x y -> is_finite x = true -> (abs (x - y) <=? epsilon) = true.
Proof.
  intros [-> | [Hx Hy]] H.
  - now rewrite sub_diag_finite.
  - apply is_zero_spec in Hx as [s Hs]. apply is_zero_spec in Hy as [t Ht].
    rewrite leb_spec, abs_spec, sub_spec, Hs, Ht.
    destruct s, t; reflexivity.
Qed.

Lemma sub_swap_neg (p q : float) : eqz (p - q) ((q - p) * (-1)).
Proof.
  rewrite mul_neg_one_r.
  destruct (SFsub_antisym (Prim2SF p) (Prim2SF q)) as [H | [Hpq Hqp]].
  - left. rewrite <- (opp_involutive (p - q)). f_equal.
    apply Prim2SF_inj. now rewrite opp_spec, !sub_spec.
  - right. split; apply is_zero_spec.
    + exists false. now rewrite sub_spec.
    + exists true. now rewrite opp_spec, sub_spec, Hqp.
Qed.

(** ** Dot and cross products *)

(** The dot product, the component-wise sum and product of vectors and the
    row-wise sum and product of matrices are commutative, exactly and on all
    values. *)
Theorem products_and_sums_commute (a b : Vector3) (m n : Matrix3) :
  Vector3.dot a b = Vector3.dot b a /\
  Vector3.add a b = Vector3.add b a /\
  Vector3.mul a b = Vector3.mul b a /\
  Matrix3.add m n = Matrix3.add n m /\
  Matrix3.mul m n = Matrix3.mul n m.
Proof.
  assert (A : forall u v, Vector3.add_assign u v = Vector3.add_assign v u).
  { intros u v. unfold Vector3.add_assign.
    now rewrite (add_comm (Vector3.x u)), (add_comm (Vector3.y u)), (add_comm (Vector3.z u)). }
  assert (M : forall u v, Vector3.mul_assign u v = Vector3.mul_assign v u).
  { intros u v. unfold Vector3.mul_assign.
    now rewrite (mul_comm (Vector3.x u)), (mul_comm (Vector3.y u)), (mul_comm (Vector3.z u)). }
  repeat split.
  - unfold Vector3.dot.
    now rewrite (mul_comm (Vector3.x a)), (mul_comm (Vector3.y a)), (mul_comm (Vector3.z a)).
  - apply A.
  - apply M.
  - unfold Matrix3.add, Matrix3.add_assign. rewrite !rowwise_assign_ok.
    now rewrite (A (Matrix3.row_0_ m)), (A (Matrix3.row_1_ m)), (A (Matrix3.row_2_ m)).
  - unfold Matrix3.mul, Matrix3.mul_assign. rewrite !rowwise_assign_ok.
    now rewrite (M (Matrix3.row_0_ m)), (M (Matrix3.row_1_ m)), (M (Matrix3.row_2_ m)).
Qed.

(** The cross product is anticommutative: when a.cross(b) has finite
    components, a.cross(b) == -1 * b.cross(a). *)
Theorem cross_anticommutative (a b : Vector3) :
  Vector3.finite (Vector3.cross a b) = true ->
  Vector3.eqb (Vector3.cross a b) (Vector3.scalar_mul (-1) (Vector3.cross b a)) = true.
Proof.
  unfold Vector3.finite, Vector3.eqb, Vector3.cross, Vector3.scalar_mul,
    Vector3.mul_scalar, Vector3.mul_assign_scalar.
  cbn [Vector3.x Vector3.y Vector3.z].
  intros H. apply andb_prop in H as [H Hz]. apply andb_prop in H as [Hx Hy].
  rewrite (mul_comm (Vector3.y b) (Vector3.z a)), (mul_comm (Vector3.z b) (Vector3.y a)),
    (mul_comm (Vector3.z b) (Vector3.x a)), (mul_comm (Vector3.x b) (Vector3.z a)),
    (mul_comm (Vector3.x b) (Vector3.y a)), (mul_comm (Vector3.y b) (Vector3.x a)).
  rewrite !eqz_close; auto using sub_swap_neg.
Qed.

Lemma cross_anticommutative_witness :
  Vector3.eqb (Vector3.cross (Vector3.mk 1 2 3) (Vector3.mk 4 5 6))
              (Vector3.scalar_mul (-1) (Vector3.cross (Vector3.mk 4 5 6) (Vector3.mk 1 2 3)))
  = true.
Proof.
  apply (cross_anticommutative (Vector3.mk 1 2 3) (Vector3.mk 4 5 6)).
  vm_compute; reflexivity.
Defined.

(** ** Sums and products with zeros and ones *)

Lemma mul_one_l (x : float) : 1 * x = x.
Proof. rewrite mul_comm. apply mul_one_r. Qed.

Lemma mul_zero_l_finite (x : float) : is_finite x = true -> is_zero (0 * x) = true.
Proof. intros H. apply is_zero_spec. exact (zero_mul_finite x H). Qed.

Lemma mul_zero_r_finite (x : float) : is_finite x = true -> is_zero (x * 0) = true.
Proof. intros H. rewrite mul_comm. now apply mul_zero_l_finite. Qed.

Lemma add_zero_r_eqz (x z : float) : is_zero z = true -> eqz (x + z) x.
Proof.
  intros Hz. apply is_zero_spec in Hz as [t Ht].
  destruct (Prim2SF x) as [s | s | | s m e] eqn:Hx.
  - right. split; apply is_zero_spec; [| eauto].
    rewrite add_spec, Hx, Ht. destruct s, t; cbn; eauto.
  - left. apply Prim2SF_inj. now rewrite add_spec, Hx, Ht.
  - left. apply Prim2SF_inj. now rewrite add_spec, Hx, Ht.
  - left. apply Prim2SF_inj. now rewrite add_spec, Hx, Ht.
Qed.

Lemma add_zero_l_eqz (x z : float) : is_zero z = true -> eqz (z + x) x.
Proof. intros Hz. rewrite add_comm. now apply add_zero_r_eqz. Qed.

Lemma add_eqz_l (x x' y : float) : eqz x x' -> eqz (x + y) (x' + y).
Proof.
  intros [-> | [Hx Hx']]; [apply eqz_refl |].
  eapply eqz_trans; [apply add_zero_l_eqz, Hx |].
  apply eqz_sym. apply add_zero_l_eqz, Hx'.
Qed.

(** A dot product with a unit vector selects a component, up to the sign of
    zero, when the other components are finite. *)
Lemma dot_select_x (x y z : float) :
  is_finite y = true -> is_finite z = true -> eqz (x * 1 + y * 0 + z * 0) x.
Proof.
  intros Hy Hz. rewrite mul_one_r.
  eapply eqz_trans; [apply add_zero_r_eqz, mul_zero_r_finite, Hz |].
  apply add_zero_r_eqz, mul_zero_r_finite, Hy.
Qed.

Lemma dot_select_y (x y z : float) :
  is_finite x = true -> is_finite z = true -> eqz (x * 0 + y * 1 + z * 0) y.
Proof.
  intros Hx Hz. rewrite mul_one_r.
  eapply eqz_trans; [apply add_zero_r_eqz, mul_zero_r_finite, Hz |].
  apply add_zero_l_eqz, mul_zero_r_finite, Hx.
Qed.

Lemma dot_select_z (x y z : float) :
  is_finite x = true -> is_finite y = true -> eqz (x * 0 + y * 0 + z * 1) z.
Proof.
  intros Hx Hy. rewrite mul_one_r.
  apply add_zero_l_eqz.
  pose proof (mul_zero_r_finite x Hx) as Ex. pose proof (mul_zero_r_finite y Hy) as Ey.
  apply is_zero_spec in Ex as [s Es]. apply is_zero_spec in Ey as [t Et].
  apply is_zero_spec. exact (add_zeros _ _ _ _ Es Et).
Qed.

(** Equality up to the sign of zero with finite values is [operator==]. *)
Lemma eqz_vector (a b : Vector3) :
  eqz (Vector3.x a) (Vector3.x b) -> eqz (Vector3.y a) (Vector3.y b) ->
  eqz (Vector3.z a) (Vector3.z b) -> Vector3.finite b = true ->
  Vector3.eqb a b = true.
Proof.
  unfold Vector3.finite, Vector3.eqb. intros Hx Hy Hz H.
  apply andb_prop in H as [H Fz]. apply andb_prop in H as [Fx Fy].
  rewrite !eqz_close; eauto using eqz_finite.
Qed.

Lemma dot_unit_x (p : Vector3) :
  is_finite (Vector3.y p) = true -> is_finite (Vector3.z p) = true ->
  eqz (Vector3.dot (Vector3.mk 1 0 0) p) (Vector3.x p) /\
  eqz (Vector3.dot p (Vector3.mk 1 0 0)) (Vector3.x p).
Proof.
  intros Hy Hz. unfold Vector3.dot. cbn [Vector3.x Vector3.y Vector3.z].
  rewrite (mul_comm 1), !(mul_comm 0). split; now apply dot_select_x.
Qed.

Lemma dot_unit_y (p : Vector3) :
  is_finite (Vector3.x p) = true -> is_finite (Vector3.z p) = true ->
  eqz (Vector3.dot (Vector3.mk 0 1 0) p) (Vector3.y p) /\
  eqz (Vector3.dot p (Vector3.mk 0 1 0)) (Vector3.y p).
Proof.
  intros Hx Hz. unfold Vector3.dot. cbn [Vector3.x Vector3.y Vector3.z].
  rewrite (mul_comm 1), !(mul_comm 0). split; now apply dot_select_y.
Qed.

Lemma dot_unit_z (p : Vector3) :
  is_finite (Vector3.x p) = true -> is_finite (Vector3.y p) = true ->
  eqz (Vector3.dot (Vector3.mk 0 0 1) p) (Vector3.z p) /\
  eqz (Vector3.dot p (Vector3.mk 0 0 1)) (Vector3.z p).
Proof.
  intros Hx Hy. unfold Vector3.dot. cbn [Vector3.x Vector3.y Vector3.z].
  rewrite (mul_comm 1), !(mul_comm 0). split; now apply dot_select_z.
Qed.

(** ** The identity matrix and the translations *)

(** The identity matrix is a unit of [Matrix3::product] on both sides, up to
    [operator==], for a matrix whose entries are finite. *)
Theorem identity_is_unit_of_product (m : Matrix3) :
  Vector3.finite (Matrix3.row_0_ m) = true ->
  Vector3.finite (Matrix3.row_1_ m) = true ->
  Vector3.finite (Matrix3.row_2_ m) = true ->
  (p <- Matrix3.product m Matrix3.kIdentity ;; Matrix3.eqb p m) = Ok true /\
  (p <- Matrix3.product Matrix3.kIdentity m ;; Matrix3.eqb p m) = Ok true.
Proof.
  destruct m as [[a1 a2 a3] [b1 b2 b3] [c1 c2 c3]].
  cbn [Matrix3.row_0_ Matrix3.row_1_ Matrix3.row_2_]. intros F0 F1 F2.
  pose proof F0 as G0. pose proof F1 as G1. pose proof F2 as G2.
  unfold Vector3.finite in G0, G1, G2. cbn [Vector3.x Vector3.y Vector3.z] in G0, G1, G2.
  apply andb_prop in G0 as [G0 A3]. apply andb_prop in G0 as [A1 A2].
  apply andb_prop in G1 as [G1 B3]. apply andb_prop in G1 as [B1 B2].
  apply andb_prop in G2 as [G2 C3]. apply andb_prop in G2 as [C1 C2].
  unfold Matrix3.product, Matrix3.eqb.
  cbn [Matrix3.row Matrix3.col Matrix3.at_ Vector3.at_ bind Matrix3.kIdentity Matrix3.mk
       Matrix3.row_0_ Matrix3.row_1_ Matrix3.row_2_ Vector3.x Vector3.y Vector3.z].
  split.
  - rewrite !eqz_vector; try assumption; try reflexivity;
      cbn [Vector3.x Vector3.y Vector3.z];
      first [ apply (dot_unit_x (Vector3.mk _ _ _))
            | apply (dot_unit_y (Vector3.mk _ _ _))
            | apply (dot_unit_z (Vector3.mk _ _ _)) ]; assumption.
  - rewrite !eqz_vector; try assumption; try reflexivity;
      cbn [Vector3.x Vector3.y Vector3.z];
      first [ apply (dot_unit_x (Vector3.mk _ _ _))
            | apply (dot_unit_y (Vector3.mk _ _ _))
            | apply (dot_unit_z (Vector3.mk _ _ _)) ]; assumption.
Qed.

Lemma identity_is_unit_of_product_witness :
  (p <- Matrix3.product (Matrix3.mk 1 2 3 4 5 6 7 8 9) Matrix3.kIdentity ;;
   Matrix3.eqb p (Matrix3.mk 1 2 3 4 5 6 7 8 9)) = Ok true /\
  (p <- Matrix3.product Matrix3.kIdentity (Matrix3.mk 1 2 3 4 5 6 7 8 9) ;;
   Matrix3.eqb p (Matrix3.mk 1 2 3 4 5 6 7 8 9)) = Ok true.
Proof.
  apply (identity_is_unit_of_product (Matrix3.mk 1 2 3 4 5 6 7 8 9)); vm_compute; reflexivity.
Defined.

(** A translation moves a point by its vector: for a point [p] with finite
    components and a finite sum p + v, fromTranslation(v).transform(p) == p + v;
    and the composition of the translations by [u] and by [v] is the
    translation by what the first does to [v]. *)
Theorem translation_transform (u v p : Vector3) :
  Vector3.finite p = true -> Vector3.finite (Vector3.add p v) = true ->
  Vector3.eqb (Isometry.transform (Isometry.fromTranslation v) p) (Vector3.add p v) = true /\
  Isometry.mul (Isometry.fromTranslation u) (Isometry.fromTranslation v) =
    Ok (Isometry.fromTranslation (Isometry.transform (Isometry.fromTranslation u) v)).
Proof.
  intros Fp Fs. split; [| reflexivity].
  pose proof Fp as G. unfold Vector3.finite in G.
  apply andb_prop in G as [G Pz]. apply andb_prop in G as [Px Py].
  apply eqz_vector; [| | | exact Fs].
  all: unfold Isometry.transform, Isometry.fromTranslation, Matrix3.mul_vector,
         Vector3.add, Vector3.add_assign.
  all: cbn [Isometry.mk Isometry.rotation_ Isometry.translation_ Matrix3.kIdentity Matrix3.mk
            Matrix3.row_0_ Matrix3.row_1_ Matrix3.row_2_ Vector3.x Vector3.y Vector3.z].
  all: apply add_eqz_l.
  - now apply dot_unit_x.
  - now apply dot_unit_y.
  - now apply dot_unit_z.
Qed.

Lemma translation_transform_witness :
  Vector3.eqb (Isometry.transform (Isometry.fromTranslation (Vector3.mk 1 2 3))
                                  (Vector3.mk 0 0 0))
              (Vector3.add (Vector3.mk 0 0 0) (Vector3.mk 1 2 3)) = true /\
  Isometry.mul (Isometry.fromTranslation (Vector3.mk 4 5 6))
               (Isometry.fromTranslation (Vector3.mk 1 2 3)) =
    Ok (Isometry.fromTranslation
          (Isometry.transform (Isometry.fromTranslation (Vector3.mk 4 5 6))
                              (Vector3.mk 1 2 3))).
Proof.
  apply (translation_transform (Vector3.mk 4 5 6) (Vector3.mk 1 2 3) (Vector3.mk 0 0 0));
    vm_compute; reflexivity.
Defined.

(** ** The norm *)

(** +0, a positive finite double or +infinity. *)
Definition SFnonneg (f : spec_float) : bool :=
  match f with
  | S754_zero false | S754_infinity false | S754_finite false _ _ => true
  | _ => false
  end.

Lemma shr_1_nonneg (mrs : shr_record) :
  (0 <= shr_m mrs)%Z -> (0 <= shr_m (shr_1 mrs))%Z.
Proof.
  destruct mrs as [m r s]. destruct m as [| [p | p |] | p]; cbn; lia.
Qed.

Lemma shr_nonneg (mrs : shr_record) (e n : Z) :
  (0 <= shr_m mrs)%Z -> (0 <= shr_m (fst (shr mrs e n)))%Z.
Proof.
  intros H. destruct n as [| p | p]; cbn [shr fst]; try exact H.
  rewrite iter_pos_nat.
  induction (Pos.to_nat p) as [| k IH]; [exact H |].
  cbn [Nat.iter nat_rect]. now apply shr_1_nonneg.
Qed.

Lemma shr_fexp_nonneg (m e : Z) (l : location) :
  (0 <= m)%Z -> (0 <= shr_m (fst (shr_fexp prec emax m e l)))%Z.
Proof.
  intros H. unfold shr_fexp. apply shr_nonneg.
  destruct l as [| []]; exact H.
Qed.

Lemma round_nearest_even_ge (m : Z) (l : location) : (m <= round_nearest_even m l)%Z.
Proof. destruct l as [| []]; cbn; try destruct (Z.even m); lia. Qed.

(** Rounding a non-negative mantissa with the sign bit clear never gives a
    NaN or a negative double. *)
Lemma binary_round_aux_nonneg (m e : Z) (l : location) :
  (0 <= m)%Z -> SFnonneg (binary_round_aux prec emax false m e l) = true.
Proof.
  intros H. unfold binary_round_aux.
  pose proof (shr_fexp_nonneg m e l H) as H1.
  destruct (shr_fexp prec emax m e l) as [mrs' e']. cbn [fst] in H1.
  pose proof (round_nearest_even_ge (shr_m mrs') (loc_of_shr_record mrs')) as H2.
  pose proof (shr_fexp_nonneg (round_nearest_even (shr_m mrs') (loc_of_shr_record mrs'))
                e' loc_Exact ltac:(lia)) as H3.
  destruct (shr_fexp prec emax _ e' loc_Exact) as [mrs'' e'']. cbn [fst] in H3.
  destruct (shr_m mrs'') as [| p | p]; [reflexivity | | lia].
  destruct (e'' <=? emax - prec)%Z; reflexivity.
Qed.

Lemma SFmul_square_nonneg (X : spec_float) :
  SFfinite X = true -> SFnonneg (SF64mul X X) = true.
Proof.
  destruct X as [s | s | | s m e]; try discriminate; intros _; unfold SF64mul, SFmul.
  - now rewrite xorb_nilpotent.
  - rewrite xorb_nilpotent. apply binary_round_aux_nonneg. lia.
Qed.

Lemma SFadd_nonneg (X Y : spec_float) :
  SFnonneg X = true -> SFnonneg Y = true -> SFnonneg (SF64add X Y) = true.
Proof.
  destruct X as [[] | [] | | [] mx ex]; try discriminate;
    destruct Y as [[] | [] | | [] my ey]; try discriminate; intros _ _; try reflexivity.
  unfold SF64add, SFadd, cond_Zopp.
  destruct (shl_align mx ex _) as [ax ?], (shl_align my ey _) as [ay ?]. cbn [fst].
  cbn [Z.add binary_normalize]. unfold binary_round.
  destruct (shl_align _ _ _) as [mz ez].
  apply binary_round_aux_nonneg. lia.
Qed.

Lemma SFsqrt_nonneg (X : spec_float) :
  SFnonneg X = true -> SFnonneg (SF64sqrt X) = true.
Proof.
  destruct X as [[] | [] | | [] m e]; try discriminate; intros _; try reflexivity.
  unfold SF64sqrt, SFsqrt, SFsqrt_core_binary.
  set (m' := match (e - 2 * _)%Z with Zpos _ => _ | Z0 => _ | Zneg _ => _ end).
  assert (Hm' : (0 <= m')%Z).
  { unfold m'. destruct (e - 2 * _)%Z; try lia. apply Z.shiftl_nonneg. lia. }
  pose proof (Z.sqrtrem_spec m' Hm') as Hs.
  destruct (Z.sqrtrem m') as [q r].
  apply binary_round_aux_nonneg. lia.
Qed.

Lemma SFnonneg_leb (X : spec_float) :
  SFnonneg X = true -> SFleb (S754_zero false) X = true.
Proof. destruct X as [[] | [] | | [] m e]; try discriminate; reflexivity. Qed.

(** The norm of a vector whose components are finite is never a NaN and
    never negative: 0 <= norm() holds (the norm is +infinity when the sum of
    the squares overflows). *)
Theorem norm_nonnegative (v : Vector3) :
  Vector3.finite v = true -> (0 <=? Vector3.norm v) = true.
Proof.
  unfold Vector3.finite. intros H.
  apply andb_prop in H as [H Hz]. apply andb_prop in H as [Hx Hy].
  unfold Vector3.norm, Vector3.dot.
  rewrite leb_spec, sqrt_spec, !add_spec, !mul_spec.
  change (Prim2SF 0) with (S754_zero false).
  apply SFnonneg_leb, SFsqrt_nonneg.
  repeat apply SFadd_nonneg; apply SFmul_square_nonneg, finite_SFfinite; assumption.
Qed.

Lemma norm_nonnegative_witness :
  (0 <=? Vector3.norm (Vector3.mk 3 (-4) 0)) = true.
Proof.
  apply (norm_nonnegative (Vector3.mk 3 (-4) 0)). vm_compute; reflexivity.
Defined.

(** ** Values that are not finite *)

Lemma div_zero_not_finite (x n : float) : is_zero n = true -> is_finite (x / n) = false.
Proof.
  intros H. apply is_zero_spec in H as [s Hs].
  rewrite is_finite_SF, div_spec, Hs.
  destruct (Prim2SF x) as [t | t | | t m e]; reflexivity.
Qed.

Lemma mul_not_finite_l (x y : float) : is_finite x = false -> is_finite (x * y) = false.
Proof.
  rewrite !is_finite_SF, mul_spec.
  destruct (Prim2SF x) as [s | s | | s m e]; try discriminate; intros _;
    destruct (Prim2SF y) as [t | t | | t m' e']; reflexivity.
Qed.

Lemma add_not_finite_r (x y : float) : is_finite y = false -> is_finite (x + y) = false.
Proof.
  rewrite !is_finite_SF, add_spec.
  destruct (Prim2SF y) as [t | t | | t m' e']; try discriminate; intros _;
    destruct (Prim2SF x) as [s | s | | s m e]; try reflexivity; destruct s, t; reflexivity.
Qed.

(** ** Rotation about an axis whose norm is computed as zero *)

(** [rotateAround] does not check the axis: when its norm is computed as 0
    (the zero vector, and also an axis so small that the squares of its
    components underflow), the call does not throw and the six off-diagonal
    entries of the rotation it returns are NaNs or infinities, whatever the
    angle and the values of the C library's functions. *)
Theorem rotateAround_zero_norm
    (cos sin : float -> float) (pow : float -> float -> float)
    (vector : Vector3) (radians : float) :
  is_zero (Vector3.norm vector) = true ->
  exists i : Isometry,
    Isometry.rotateAround cos sin pow vector radians = Ok i /\
    is_finite (Vector3.y (Matrix3.row_0_ (Isometry.rotation i))) = false /\
    is_finite (Vector3.z (Matrix3.row_0_ (Isometry.rotation i))) = false /\
    is_finite (Vector3.x (Matrix3.row_1_ (Isometry.rotation i))) = false /\
    is_finite (Vector3.z (Matrix3.row_1_ (Isometry.rotation i))) = false /\
    is_finite (Vector3.x (Matrix3.row_2_ (Isometry.rotation i))) = false /\
    is_finite (Vector3.y (Matrix3.row_2_ (Isometry.rotation i))) = false.
Proof.
  intros Hn. eexists. split; [reflexivity |].
  cbn [Isometry.rotation Isometry.mk Isometry.rotation_ Matrix3.mk
       Matrix3.row_0_ Matrix3.row_1_ Matrix3.row_2_ Vector3.x Vector3.y Vector3.z].
  repeat split;
    first [apply add_not_finite_r | apply sub_not_finite_r];
    apply mul_not_finite_l, div_zero_not_finite, Hn.
Qed.

Lemma rotateAround_zero_norm_witness :
  exists i : Isometry,
    Isometry.rotateAround (fun _ => cos_pi_2) (fun _ => 1) (fun u _ => u * u)
      (Vector3.mk 0x1p-700 0 0) pi_2 = Ok i /\
    is_finite (Vector3.y (Matrix3.row_0_ (Isometry.rotation i))) = false /\
    is_finite (Vector3.z (Matrix3.row_0_ (Isometry.rotation i))) = false /\
    is_finite (Vector3.x (Matrix3.row_1_ (Isometry.rotation i))) = false /\
    is_finite (Vector3.z (Matrix3.row_1_ (Isometry.rotation i))) = false /\
    is_finite (Vector3.x (Matrix3.row_2_ (Isometry.rotation i))) = false /\
    is_finite (Vector3.y (Matrix3.row_2_ (Isometry.rotation i))) = false.
Proof.
  apply (rotateAround_zero_norm (fun _ => cos_pi_2) (fun _ => 1) (fun u _ => u * u)
           (Vector3.mk 0x1p-700 0 0) pi_2).
  vm_compute; reflexivity.
Defined.

(** ** Rotation about the z axis *)

Lemma zero_sub_eqz (z s : float) : is_zero z = true -> eqz (z - s) (- s).
Proof.
  intros Hz. apply is_zero_spec in Hz as [t Ht].
  destruct (Prim2SF s) as [u | u | | u m e] eqn:Hs.
  - right. split; apply is_zero_spec.
    + rewrite sub_spec, Ht, Hs. destruct t, u; cbn; eauto.
    + rewrite opp_spec, Hs. cbn; eauto.
  - left. apply Prim2SF_inj. rewrite sub_spec, opp_spec, Ht, Hs. reflexivity.
  - left. apply Prim2SF_inj. rewrite sub_spec, opp_spec, Ht, Hs. reflexivity.
  - left. apply Prim2SF_inj. rewrite sub_spec, opp_spec, Ht, Hs. reflexivity.
Qed.

Lemma zero_add_zero (a b : float) :
  is_zero a = true -> is_zero b = true -> is_zero (a + b) = true.
Proof.
  intros Ha Hb. apply is_zero_spec in Ha as [s Hs]. apply is_zero_spec in Hb as [t Ht].
  apply is_zero_spec. exact (add_zeros _ _ _ _ Hs Ht).
Qed.

Lemma zero_sub_zero (a b : float) :
  is_zero a = true -> is_zero b = true -> is_zero (a - b) = true.
Proof.
  intros Ha Hb. apply is_zero_spec in Ha as [s Hs]. apply is_zero_spec in Hb as [t Ht].
  apply is_zero_spec. rewrite sub_spec, Hs, Ht. destruct s, t; cbn; eauto.
Qed.

Lemma opp_finite (x : float) : is_finite (- x) = is_finite x.
Proof.
  rewrite !is_finite_SF, opp_spec. destruct (Prim2SF x); reflexivity.
Qed.

Lemma eqz_zero (x : float) : is_zero x = true -> eqz x 0.
Proof. intros H. right. split; [exact H | reflexivity]. Qed.

(** The rotation that [rotateAround] builds about (0,0,1), applied to
    (1,0,0), when the entries it uses are finite. *)
Lemma rotateAround_z_core (cos sin : float -> float) (pow : float -> float -> float)
    (radians : float) :
  pow 0 2 = 0 ->
  is_finite (cos radians) = true -> is_finite (sin radians) = true ->
  is_finite (1 - cos radians) = true ->
  is_finite (cos radians + pow 1 2 * (1 - cos radians)) = true ->
  exists i : Isometry,
    Isometry.rotateAround cos sin pow (Vector3.mk 0 0 1) radians = Ok i /\
    Vector3.eqb (Isometry.transform i (Vector3.mk 1 0 0))
                (Vector3.mk (cos radians) (sin radians) 0) = true.
Proof.
  intros Hpow Fc Fs Fd F22.
  eexists. split; [reflexivity |].
  unfold Isometry.transform, Matrix3.mul_vector, Vector3.add, Vector3.add_assign.
  cbn [Isometry.rotation_ Isometry.translation_ Isometry.mk Matrix3.mk Vector3.default
       Matrix3.row_0_ Matrix3.row_1_ Matrix3.row_2_ Vector3.x Vector3.y Vector3.z].
  replace (0 / Vector3.norm (Vector3.mk 0 0 1)) with 0 by (vm_compute; reflexivity).
  replace (1 / Vector3.norm (Vector3.mk 0 0 1)) with 1 by (vm_compute; reflexivity).
  rewrite Hpow.
  replace (0 * 0) with 0 by (vm_compute; reflexivity).
  replace (0 * 1) with 0 by (vm_compute; reflexivity).
  replace (1 * 0) with 0 by (vm_compute; reflexivity).
  rewrite !mul_one_l.
  set (c := cos radians) in *. set (s := sin radians) in *.
  assert (Zd : is_zero (0 * (1 - c)) = true) by now apply mul_zero_l_finite.
  assert (Zs : is_zero (0 * s) = true) by now apply mul_zero_l_finite.
  assert (E00 : eqz (c + 0 * (1 - c)) c) by now apply add_zero_r_eqz.
  assert (E01 : eqz (0 * (1 - c) - s) (- s)) by now apply zero_sub_eqz.
  assert (E10 : eqz (0 * (1 - c) + s) s) by now apply add_zero_l_eqz.
  assert (Z02 : is_zero (0 * (1 - c) + 0 * s) = true) by now apply zero_add_zero.
  assert (Z12 : is_zero (0 * (1 - c) - 0 * s) = true) by now apply zero_sub_zero.
  assert (F00 : is_finite (c + 0 * (1 - c)) = true) by (eapply eqz_finite; eauto).
  assert (F01 : is_finite (0 * (1 - c) - s) = true).
  { eapply eqz_finite; [exact E01 |]. now rewrite opp_finite. }
  apply eqz_vector; cbn [Vector3.x Vector3.y Vector3.z].
  - eapply eqz_trans; [apply add_zero_r_eqz; reflexivity |].
    eapply eqz_trans; [apply dot_select_x | exact E00].
    + exact F01.
    + now apply is_zero_finite.
  - eapply eqz_trans; [apply add_zero_r_eqz; reflexivity |].
    eapply eqz_trans; [apply dot_select_x | exact E10].
    + exact F00.
    + now apply is_zero_finite.
  - eapply eqz_trans; [apply add_zero_r_eqz; reflexivity |].
    eapply eqz_trans; [apply dot_select_x |].
    + now apply is_zero_finite.
    + exact F22.
    + now apply eqz_zero.
  - unfold Vector3.finite. cbn [Vector3.x Vector3.y Vector3.z].
    now rewrite Fc, Fs.
Qed.

Section Magnitudes.

Local Open Scope Z_scope.

Lemma SFadd_units (sx sy : bool) (mx my : positive) (ex ey : Z) :
  -1074 <= ex -> -1074 <= ey ->
  (cond_Zopp sx (Zpos (fst (shl_align mx ex (Z.min ex ey)))) +
   cond_Zopp sy (Zpos (fst (shl_align my ey (Z.min ex ey))))) * 2 ^ (Z.min ex ey + 1074) =
  SFunits (S754_finite sx mx ex) + SFunits (S754_finite sy my ey).
Proof.
  intros Hx Hy.
  destruct (shl_align_value mx ex (Z.min ex ey)) as (Ex & _ & Sx); [lia | lia |].
  destruct (shl_align_value my ey (Z.min ex ey)) as (Ey & _ & Sy); [lia | lia |].
  rewrite Sx in Ex. rewrite Sy in Ey.
  replace (Z.min ex (Z.min ex ey)) with (Z.min ex ey) in Ex by lia.
  replace (Z.min ey (Z.min ex ey)) with (Z.min ex ey) in Ey by lia.
  cbn [SFunits]. rewrite <- Ex, <- Ey.
  destruct sx, sy; cbn [cond_Zopp]; lia.
Qed.

(** The magnitude of a result, counted in units of 2^-1074; it is only
    meant for a zero or a finite double. *)
Definition SFbounded (r : spec_float) (B : Z) : Prop :=
  match r with
  | S754_zero _ => True
  | S754_finite _ m e => Zpos m * 2 ^ (e + 1074) <= B
  | _ => False
  end.

Lemma SFbounded_units (r : spec_float) (B : Z) :
  0 <= B -> SFbounded r B -> SFfinite r = true /\ Z.abs (SFunits r) <= B.
Proof.
  intros HB H. destruct r as [s | s | | s m e]; try contradiction;
    cbn [SFbounded SFfinite SFunits] in *.
  - split; [reflexivity | exact HB].
  - split; [reflexivity |].
    assert (0 <= Zpos m * 2 ^ (e + 1074))
      by (apply Z.mul_nonneg_nonneg; [lia | apply Z.pow_nonneg; lia]).
    destruct s; cbn [cond_Zopp]; [rewrite Z.abs_opp |]; rewrite Z.abs_eq; assumption.
Qed.

Lemma SFadd_upper (X Y : spec_float) (K : Z) :
  valid_binary X = true -> valid_binary Y = true ->
  SFfinite X = true -> SFfinite Y = true ->
  -1074 <= K <= 971 ->
  Z.abs (SFunits X + SFunits Y) <= 2 ^ (K + 1074) ->
  SFbounded (SF64add X Y) (2 ^ (K + 1074)).
Proof.
  intros VX VY FX FY HK H. unfold SFbounded.
  destruct X as [sx | sx | | sx mx ex]; try discriminate FX;
    destruct Y as [sy | sy | | sy my ey]; try discriminate FY.
  - destruct sx, sy; exact I.
  - cbn [SF64add SFadd]. cbn [SFunits] in H.
    destruct sy; cbn [cond_Zopp] in H; lia.
  - cbn [SF64add SFadd]. cbn [SFunits] in H.
    destruct sx; cbn [cond_Zopp] in H; lia.
  - destruct (valid_finite _ _ _ VX) as (Hex & _).
    destruct (valid_finite _ _ _ VY) as (Hey & _).
    unfold SF64add, SFadd.
    apply binary_normalize_upper; [lia | exact HK |].
    rewrite <- (Z.abs_eq (2 ^ (Z.min ex ey + 1074))) by (apply Z.pow_nonneg; lia).
    rewrite <- Z.abs_mul, SFadd_units by lia. exact H.
Qed.

Lemma SFsub_bounded (X Y : spec_float) (K : Z) :
  valid_binary X = true -> valid_binary Y = true ->
  SFfinite X = true -> SFfinite Y = true ->
  -1074 <= K <= 971 ->
  Z.abs (SFunits X - SFunits Y) <= 2 ^ (K + 1074) ->
  SFbounded (SF64sub X Y) (2 ^ (K + 1074)).
Proof. intros. now apply SFsub_upper. Qed.

(** A double of absolute value at most 1 is worth at most 2^1074 units. *)
Lemma SFleb_one_units (X : spec_float) (K : Z) :
  K = 0 ->
  valid_binary X = true ->
  SFleb (SFabs X) (S754_finite false 4503599627370496 (-52)) = true ->
  SFfinite X = true /\ Z.abs (SFunits X) <= 2 ^ (K + 1074).
Proof.
  intros HK V H.
  assert (HB : 0 <= 2 ^ (K + 1074)) by (apply Z.pow_nonneg; lia).
  destruct X as [s | s | | s m e]; try discriminate H.
  - split; [reflexivity | exact HB].
  - split; [reflexivity |].
    destruct (valid_finite _ _ _ V) as (He & Hd & Hn).
    destruct (digits2_pos_bounds m) as [_ Hhi].
    assert (He' : 0 <= e + 1074) by (clear - He; lia).
    assert (Hv : Zpos m * 2 ^ (e + 1074) <= 2 ^ (K + 1074)).
    { unfold SFleb, SFcompare, SFabs in H.
      destruct (Z.compare_spec e (-52)) as [Heq | Hlt | Hgt]; [| | discriminate H].
      - assert (Hm : Zpos m <= 4503599627370496).
        { apply Pos2Z.pos_le_pos. unfold Pos.le, Pos.compare.
          destruct (Pos.compare_cont Eq m 4503599627370496); discriminate. }
        assert (EK : K + 1074 = 52 + (e + 1074)) by (clear - HK Heq; lia).
        rewrite EK, (Z.pow_add_r 2 52) by (clear - He'; lia).
        apply Z.mul_le_mono_nonneg_r; [apply Z.pow_nonneg; clear; lia |].
        change (2 ^ 52) with 4503599627370496. exact Hm.
      - assert (Hm : Zpos m < 2 ^ 53).
        { eapply Z.lt_le_trans; [exact Hhi | apply pow2_le; clear - Hd; lia]. }
        apply Z.lt_le_incl.
        eapply Z.lt_le_trans with (m := 2 ^ (53 + (e + 1074))).
        + rewrite (Z.pow_add_r 2 53) by (clear - He'; lia).
          apply Z.mul_lt_mono_pos_r; [apply pow2_pos; exact He' | exact Hm].
        + apply pow2_le. clear - HK Hlt. lia. }
    cbn [SFunits].
    assert (0 <= Zpos m * 2 ^ (e + 1074))
      by (apply Z.mul_nonneg_nonneg; [clear; lia | apply Z.pow_nonneg; clear; lia]).
    destruct s; cbn [cond_Zopp]; [rewrite Z.abs_opp |]; rewrite Z.abs_eq; assumption.
Qed.

End Magnitudes.

Lemma SFunits_one : SFunits (S754_finite false 4503599627370496 (-52)) = (2 ^ (0 + 1074))%Z.
Proof.
  unfold SFunits, cond_Zopp.
  change (Zpos 4503599627370496) with (2 ^ 52)%Z.
  rewrite <- Z.pow_add_r by lia. f_equal.
Qed.

(** For a double [c] with |c| <= 1, the differences and sums that the
    rotation matrix is made of stay finite. *)
Lemma unit_interval_finite (c : float) :
  (abs c <=? 1) = true ->
  is_finite c = true /\ is_finite (1 - c) = true /\ is_finite (c + (1 - c)) = true.
Proof.
  intros H. rewrite leb_spec, abs_spec in H.
  change (Prim2SF 1) with (S754_finite false 4503599627370496 (-52)) in H.
  destruct (SFleb_one_units (Prim2SF c) 0 eq_refl (Prim2SF_valid c) H) as [Fc Bc].
  assert (V1 : valid_binary (S754_finite false 4503599627370496 (-52)) = true) by reflexivity.
  assert (E1 : (2 ^ (1 + 1074) = 2 * 2 ^ (0 + 1074))%Z).
  { replace (1 + 1074)%Z with (Z.succ (0 + 1074)) by reflexivity.
    apply Z.pow_succ_r. lia. }
  assert (E2 : (2 ^ (2 + 1074) = 2 * 2 ^ (1 + 1074))%Z).
  { replace (2 + 1074)%Z with (Z.succ (1 + 1074)) by reflexivity.
    apply Z.pow_succ_r. lia. }
  assert (HB : (0 <= 2 ^ (0 + 1074))%Z) by (apply Z.pow_nonneg; lia).
  pose proof SFunits_one as U1.
  assert (Bd : SFbounded (SF64sub (S754_finite false 4503599627370496 (-52)) (Prim2SF c))
                         (2 ^ (1 + 1074))).
  { apply SFsub_bounded; try assumption; try apply Prim2SF_valid; try reflexivity; [lia |].
    rewrite U1, E1. clear - Bc HB.
    set (B := (2 ^ (0 + 1074))%Z) in *. clearbody B. lia. }
  apply SFbounded_units in Bd as [Fd Bd']; [| rewrite E1; clear - HB; lia].
  assert (Vd : valid_binary (SF64sub (S754_finite false 4503599627370496 (-52)) (Prim2SF c))
               = true).
  { change (S754_finite false 4503599627370496 (-52)) with (Prim2SF 1).
    rewrite <- sub_spec. apply Prim2SF_valid. }
  assert (Bs : SFbounded (SF64add (Prim2SF c)
                            (SF64sub (S754_finite false 4503599627370496 (-52)) (Prim2SF c)))
                         (2 ^ (2 + 1074))).
  { apply SFadd_upper; try assumption; try apply Prim2SF_valid; [lia |].
    rewrite E2, E1. rewrite E1 in Bd'. clear - Bc Bd' HB.
    set (B := (2 ^ (0 + 1074))%Z) in *. clearbody B.
    set (u := SFunits (Prim2SF c)) in *. clearbody u.
    set (d := SFunits _) in *. clearbody d. lia. }
  apply SFbounded_units in Bs as [Fs _]; [| apply Z.pow_nonneg; lia].
  rewrite !is_finite_SF, add_spec, sub_spec.
  change (Prim2SF 1) with (S754_finite false 4503599627370496 (-52)).
  now rewrite Fc, Fd, Fs.
Qed.

(** For every angle: if the C library's [pow] is exact at 0^2 and 1^2, its
    cosine of the angle is at most 1 in absolute value and its sine is
    finite, then rotateAround((0,0,1), angle) does not throw and transforms
    (1,0,0) into a vector that [operator==] equates with (cos, sin, 0). *)
Theorem rotateAround_z_maps_unit_x
    (cos sin : float -> float) (pow : float -> float -> float) (radians : float) :
  pow 0 2 = 0 -> pow 1 2 = 1 ->
  (abs (cos radians) <=? 1) = true -> is_finite (sin radians) = true ->
  exists i : Isometry,
    Isometry.rotateAround cos sin pow (Vector3.mk 0 0 1) radians = Ok i /\
    Vector3.eqb (Isometry.transform i (Vector3.mk 1 0 0))
                (Vector3.mk (cos radians) (sin radians) 0) = true.
Proof.
  intros Hp0 Hp1 Hc Hs.
  destruct (unit_interval_finite _ Hc) as (Fc & Fd & F22).
  apply rotateAround_z_core; try assumption.
  now rewrite Hp1, mul_one_l.
Qed.

Lemma rotateAround_z_maps_unit_x_witness :
  exists i : Isometry,
    Isometry.rotateAround (fun _ => 0.5) (fun _ => 0.75) (fun u _ => u * u)
      (Vector3.mk 0 0 1) 1 = Ok i /\
    Vector3.eqb (Isometry.transform i (Vector3.mk 1 0 0)) (Vector3.mk 0.5 0.75 0) = true.
Proof.
  apply (rotateAround_z_maps_unit_x (fun _ => 0.5) (fun _ => 0.75) (fun u _ => u * u) 1);
    vm_compute; reflexivity.
Defined.

(** ** Equality of matrices and isometries; scaling by 1 and -1 *)

(** [Matrix3::operator==] and [Isometry::operator==] hold between an object
    with finite entries and itself. *)
Theorem eqb_reflexive_on_finite (i : Isometry) :
  Vector3.finite (Matrix3.row_0_ (Isometry.rotation i)) = true ->
  Vector3.finite (Matrix3.row_1_ (Isometry.rotation i)) = true ->
  Vector3.finite (Matrix3.row_2_ (Isometry.rotation i)) = true ->
  Vector3.finite (Isometry.translation i) = true ->
  Matrix3.eqb (Isometry.rotation i) (Isometry.rotation i) = Ok true /\
  Isometry.eqb i i = Ok true.
Proof.
  intros F0 F1 F2 Ft.
  assert (V : forall v, Vector3.finite v = true -> Vector3.eqb v v = true).
  { intros v Fv. apply eqz_vector; try apply eqz_refl. exact Fv. }
  assert (M : Matrix3.eqb (Isometry.rotation i) (Isometry.rotation i) = Ok true).
  { unfold Matrix3.eqb. cbn [Matrix3.at_ bind]. now rewrite !V. }
  split; [exact M |].
  unfold Isometry.eqb. unfold Isometry.rotation in M. rewrite M. cbn [bind].
  now rewrite V.
Qed.

Lemma eqb_reflexive_on_finite_witness :
  Matrix3.eqb (Isometry.rotation (Isometry.fromTranslation (Vector3.mk 1 2 3)))
              (Isometry.rotation (Isometry.fromTranslation (Vector3.mk 1 2 3))) = Ok true /\
  Isometry.eqb (Isometry.fromTranslation (Vector3.mk 1 2 3))
               (Isometry.fromTranslation (Vector3.mk 1 2 3)) = Ok true.
Proof.
  apply (eqb_reflexive_on_finite (Isometry.fromTranslation (Vector3.mk 1 2 3)));
    vm_compute; reflexivity.
Defined.

(** Scaling by 1 changes nothing and scaling by -1 twice gives the vector
    back, exactly and on all values; the row-wise product with the all-ones
    matrix and the scaling of a matrix by 1 change nothing either. *)
Theorem scaling_by_units (v : Vector3) (m : Matrix3) :
  Vector3.mul_scalar v 1 = v /\
  Vector3.scalar_mul 1 v = v /\
  Vector3.scalar_mul (-1) (Vector3.scalar_mul (-1) v) = v /\
  Matrix3.mul_scalar m 1 = m /\
  Matrix3.scalar_mul 1 m = m /\
  Matrix3.mul m Matrix3.kOnes = Ok m.
Proof.
  assert (V : forall u, Vector3.mul_assign_scalar u 1 = u).
  { intros [x y z]. unfold Vector3.mul_assign_scalar. cbn. now rewrite !mul_one_r. }
  destruct m as [r0 r1 r2].
  repeat split; try apply V.
  - destruct v as [x y z].
    unfold Vector3.scalar_mul, Vector3.mul_scalar, Vector3.mul_assign_scalar. cbn.
    now rewrite !mul_neg_one_r, !opp_involutive.
  - unfold Matrix3.mul_scalar, Matrix3.mul_assign_scalar. cbn. now rewrite !V.
  - unfold Matrix3.scalar_mul, Matrix3.mul_scalar, Matrix3.mul_assign_scalar. cbn.
    now rewrite !V.
  - unfold Matrix3.mul, Matrix3.mul_assign. rewrite rowwise_assign_ok.
    destruct r0, r1, r2. unfold Vector3.mul_assign. cbn. now rewrite !mul_one_r.
Qed.

(** ** The inverse of a translation *)

Lemma mul_zero_finite (k y : float) :
  is_zero k = true -> is_finite y = true -> is_zero (k * y) = true.
Proof.
  intros Hk Hy. apply is_zero_spec in Hk as [s Hs]. apply is_zero_spec.
  rewrite mul_spec, Hs.
  destruct (finite_cases y Hy) as [[t ->] | (t & m & e & ->)]; cbn; eauto.
Qed.

Lemma add_opp_zero (x : float) : is_finite x = true -> is_zero (x + - x) = true.
Proof.
  intros H. apply is_zero_spec. rewrite add_spec, opp_spec.
  destruct (finite_cases x H) as [[s ->] | (s & m & e & ->)].
  - destruct s; cbn; eauto.
  - exists false. unfold SF64add, SFadd, SFopp.
    set (a := Zpos (fst (shl_align m e (Z.min e e)))).
    replace (cond_Zopp s a + cond_Zopp (negb s) a)%Z with 0%Z
      by (destruct s; cbn [cond_Zopp negb]; lia).
    reflexivity.
Qed.

Lemma mul_neg_one_eqz (a b : float) : eqz a b -> eqz (a * (-1)) (b * (-1)).
Proof.
  intros [-> | [Ha Hb]]; [apply eqz_refl |].
  right. split; apply mul_zero_finite; try assumption; reflexivity.
Qed.

(** A matrix with ones on the diagonal and zeros of either sign elsewhere. *)
Definition unit_diagonal (m : Matrix3) : Prop :=
  Vector3.x (Matrix3.row_0_ m) = 1 /\ is_zero (Vector3.y (Matrix3.row_0_ m)) = true /\
  is_zero (Vector3.z (Matrix3.row_0_ m)) = true /\
  is_zero (Vector3.x (Matrix3.row_1_ m)) = true /\ Vector3.y (Matrix3.row_1_ m) = 1 /\
  is_zero (Vector3.z (Matrix3.row_1_ m)) = true /\
  is_zero (Vector3.x (Matrix3.row_2_ m)) = true /\
  is_zero (Vector3.y (Matrix3.row_2_ m)) = true /\ Vector3.z (Matrix3.row_2_ m) = 1.

Lemma unit_diagonal_mul_vector (m : Matrix3) (p : Vector3) :
  unit_diagonal m -> Vector3.finite p = true ->
  eqz (Vector3.x (Matrix3.mul_vector m p)) (Vector3.x p) /\
  eqz (Vector3.y (Matrix3.mul_vector m p)) (Vector3.y p) /\
  eqz (Vector3.z (Matrix3.mul_vector m p)) (Vector3.z p).
Proof.
  destruct m as [[a1 a2 a3] [b1 b2 b3] [c1 c2 c3]], p as [x y z].
  unfold unit_diagonal, Vector3.finite, Matrix3.mul_vector, Vector3.dot. cbn.
  intros (-> & A2 & A3 & B1 & -> & B3 & C1 & C2 & ->) F.
  apply andb_prop in F as [F Fz]. apply andb_prop in F as [Fx Fy].
  rewrite !mul_one_l.
  repeat split.
  - eapply eqz_trans; [apply add_zero_r_eqz | apply add_zero_r_eqz];
      now apply mul_zero_finite.
  - eapply eqz_trans; [apply add_zero_r_eqz | apply add_zero_l_eqz];
      now apply mul_zero_finite.
  - apply add_zero_l_eqz. apply zero_add_zero; now apply mul_zero_finite.
Qed.

Lemma inverse_identity :
  Matrix3.inverse Matrix3.kIdentity = Ok (Matrix3.mk 1 (-0) 0 (-0) 1 (-0) 0 (-0) 1) /\
  Matrix3.mul (Matrix3.mk 1 (-0) 0 (-0) 1 (-0) 0 (-0) 1) Matrix3.kIdentity =
    Ok (Matrix3.mk 1 (-0) 0 (-0) 1 (-0) 0 (-0) 1).
Proof. split; vm_compute; reflexivity. Qed.

(** For a translation [t] by a vector with finite components, [t.inverse()]
    does not throw and has a translation that [operator==] equates with
    -1 * v, and t.inverse().compose(t) sends every point with finite
    components to a point that [operator==] equates with it. *)
Theorem translation_inverse_round_trip (v p : Vector3) :
  Vector3.finite v = true -> Vector3.finite p = true ->
  exists j k : Isometry,
    Isometry.inverse (Isometry.fromTranslation v) = Ok j /\
    Isometry.compose j (Isometry.fromTranslation v) = Ok k /\
    Vector3.eqb (Isometry.translation j) (Vector3.scalar_mul (-1) v) = true /\
    Vector3.eqb (Isometry.transform k p) p = true.
Proof.
  intros Fv Fp.
  destruct inverse_identity as [Einv Emul].
  set (inv := Matrix3.mk 1 (-0) 0 (-0) 1 (-0) 0 (-0) 1) in *.
  assert (U : unit_diagonal inv) by (repeat split; reflexivity).
  destruct (unit_diagonal_mul_vector inv v U Fv) as (Wx & Wy & Wz).
  destruct (unit_diagonal_mul_vector inv p U Fp) as (Px & Py & Pz).
  set (w := Matrix3.mul_vector inv v) in *.
  exists (Isometry.mk (Vector3.scalar_mul (-1) w) inv).
  exists (Isometry.mk (Vector3.add w (Vector3.scalar_mul (-1) w)) inv).
  pose proof Fv as G. unfold Vector3.finite in G.
  apply andb_prop in G as [G Vz]. apply andb_prop in G as [Vx Vy].
  split; [| split; [| split]].
  - unfold Isometry.inverse, Isometry.fromTranslation.
    cbn [Isometry.mk Isometry.rotation_ Isometry.translation_].
    rewrite Einv. cbn [bind]. now rewrite product_vector_ok.
  - unfold Isometry.compose, Isometry.mul, Isometry.fromTranslation.
    cbn [Isometry.mk Isometry.rotation Isometry.translation
         Isometry.rotation_ Isometry.translation_].
    now rewrite Emul.
  - apply eqz_vector; cbn; try (now apply mul_neg_one_eqz).
    unfold Vector3.finite. cbn. now rewrite !mul_neg_one_r, !opp_finite, Vx, Vy, Vz.
  - apply eqz_vector; [| | | exact Fp].
    all: unfold Isometry.transform, Vector3.add, Vector3.add_assign, Vector3.scalar_mul,
           Vector3.mul_scalar, Vector3.mul_assign_scalar.
    all: cbn [Isometry.mk Isometry.rotation_ Isometry.translation_
              Vector3.x Vector3.y Vector3.z].
    all: rewrite mul_neg_one_r.
    all: eapply eqz_trans;
           [apply add_zero_r_eqz, add_opp_zero; eapply eqz_finite; eassumption |].
    all: assumption.
Qed.

Lemma translation_inverse_round_trip_witness :
  exists j k : Isometry,
    Isometry.inverse (Isometry.fromTranslation (Vector3.mk 1 2 3)) = Ok j /\
    Isometry.compose j (Isometry.fromTranslation (Vector3.mk 1 2 3)) = Ok k /\
    Vector3.eqb (Isometry.translation j) (Vector3.scalar_mul (-1) (Vector3.mk 1 2 3)) = true /\
    Vector3.eqb (Isometry.transform k (Vector3.mk 2 3 4)) (Vector3.mk 2 3 4) = true.
Proof.
  apply (translation_inverse_round_trip (Vector3.mk 1 2 3) (Vector3.mk 2 3 4));
    vm_compute; reflexivity.
Defined.

(** ** Euler angles *)

(** A matrix whose six entries off the diagonal are zeros of either sign. *)
Definition off_diagonal_zero (m : Matrix3) : Prop :=
  is_zero (Vector3.y (Matrix3.row_0_ m)) = true /\
  is_zero (Vector3.z (Matrix3.row_0_ m)) = true /\
  is_zero (Vector3.x (Matrix3.row_1_ m)) = true /\
  is_zero (Vector3.z (Matrix3.row_1_ m)) = true /\
  is_zero (Vector3.x (Matrix3.row_2_ m)) = true /\
  is_zero (Vector3.y (Matrix3.row_2_ m)) = true.

(** A product of three finite doubles is a zero when one of the first two is. *)
Lemma mul3_zero (a b c : float) :
  is_finite a = true -> is_finite b = true -> is_finite c = true ->
  is_zero a = true \/ is_zero b = true ->
  is_zero (a * b * c) = true.
Proof.
  intros Fa Fb Fc [Z | Z]; apply mul_zero_finite; try assumption.
  - now apply mul_zero_finite.
  - rewrite mul_comm. now apply mul_zero_finite.
Qed.

(** The off-diagonal entries of the matrix that [rotateAround] builds about
    a coordinate axis: zeros where the axis has two zero components, and
    finite everywhere. *)
Lemma axis_entries (c s : float) :
  is_finite (1 - c) = true -> is_finite s = true ->
  is_zero (0 * (1 - c) - 0 * s) = true /\ is_zero (0 * (1 - c) + 0 * s) = true /\
  is_finite (0 * (1 - c) - 1 * s) = true /\ is_finite (0 * (1 - c) + 1 * s) = true.
Proof.
  intros Fd Fs. rewrite mul_one_l.
  assert (Zd : is_zero (0 * (1 - c)) = true) by now apply mul_zero_l_finite.
  assert (Zs : is_zero (0 * s) = true) by now apply mul_zero_l_finite.
  repeat split.
  - now apply zero_sub_zero.
  - now apply zero_add_zero.
  - eapply eqz_finite; [now apply zero_sub_eqz |]. now rewrite opp_finite.
  - eapply eqz_finite; [now apply add_zero_l_eqz | exact Fs].
Qed.

(** For all angles whose cosines the C library returns within [-1, 1] and
    whose sines it returns finite, [fromEulerAngles] does not throw, and
    every entry off the diagonal of the rotation it returns is a zero:
    the three axis rotations are multiplied entry by entry, and at each
    place off the diagonal one of the first two factors is a zero. *)
Theorem fromEulerAngles_rotation_is_diagonal
    (cos sin : float -> float) (pow : float -> float -> float) (roll pitch yaw : float) :
  (abs (cos roll) <=? 1) = true -> is_finite (sin roll) = true ->
  (abs (cos pitch) <=? 1) = true -> is_finite (sin pitch) = true ->
  (abs (cos yaw) <=? 1) = true -> is_finite (sin yaw) = true ->
  exists i : Isometry,
    Isometry.fromEulerAngles cos sin pow roll pitch yaw = Ok i /\
    off_diagonal_zero (Isometry.rotation_ i).
Proof.
  intros C1 S1 C2 S2 C3 S3.
  destruct (unit_interval_finite _ C1) as (_ & D1 & _).
  destruct (unit_interval_finite _ C2) as (_ & D2 & _).
  destruct (unit_interval_finite _ C3) as (_ & D3 & _).
  destruct (axis_entries _ _ D1 S1) as (Zm1 & Zp1 & Fm1 & Fp1).
  destruct (axis_entries _ _ D2 S2) as (Zm2 & Zp2 & Fm2 & Fp2).
  destruct (axis_entries _ _ D3 S3) as (Zm3 & Zp3 & Fm3 & Fp3).
  eexists. split; [reflexivity |].
  unfold off_diagonal_zero. cbn -[is_zero].
  repeat split; apply mul3_zero; auto using is_zero_finite.
Qed.

Lemma fromEulerAngles_rotation_is_diagonal_witness :
  exists i : Isometry,
    Isometry.fromEulerAngles (fun a => a) (fun a => a * a) (fun u _ => u * u)
      0.5 0.25 0.125 = Ok i /\
    off_diagonal_zero (Isometry.rotation_ i).
Proof.
  apply (fromEulerAngles_rotation_is_diagonal (fun a => a) (fun a => a * a) (fun u _ => u * u)
           0.5 0.25 0.125); vm_compute; reflexivity.
Defined.

(** ** Singular matrices *)

Lemma zero_below_threshold (d : float) :
  is_zero d = true -> (abs d <? 0x1.0c6f7a0b5ed8dp-20) = true.
Proof.
  intros H. apply is_zero_spec in H as [s Hs].
  rewrite ltb_spec, abs_spec, Hs. reflexivity.
Qed.

(** A matrix whose second and third rows are equal: when the first row
    is finite and the products of two entries of the repeated row are finite,
    the determinant is computed as a zero, so [Matrix3::inverse] and
    [Isometry::inverse] throw the runtime error. *)
Theorem equal_rows_not_invertible (t r0 r : Vector3) :
  Vector3.finite r0 = true ->
  is_finite (Vector3.x r * Vector3.y r) = true ->
  is_finite (Vector3.x r * Vector3.z r) = true ->
  is_finite (Vector3.y r * Vector3.z r) = true ->
  (exists d, Matrix3.det (Matrix3.mk_rows r0 r r) = Ok d /\ is_zero d = true) /\
  Matrix3.inverse (Matrix3.mk_rows r0 r r) = Throw (runtime_error "Matrix is non-invertible") /\
  Isometry.inverse (Isometry.mk t (Matrix3.mk_rows r0 r r)) =
    Throw (runtime_error "Matrix is non-invertible").
Proof.
  destruct r0 as [a b c], r as [d e f].
  unfold Vector3.finite. cbn [Vector3.x Vector3.y Vector3.z].
  intros H Fde Fdf Fef.
  apply andb_prop in H as [H Fc]. apply andb_prop in H as [Fa Fb].
  assert (D : Matrix3.det (Matrix3.mk_rows (Vector3.mk a b c) (Vector3.mk d e f)
                             (Vector3.mk d e f)) =
              Ok (a * 0 - b * 0 + c * 0)).
  { change (Matrix3.mk_rows (Vector3.mk a b c) (Vector3.mk d e f) (Vector3.mk d e f))
      with (Matrix3.mk a b c d e f d e f).
    rewrite det_rows.
    rewrite (mul_comm f e), (mul_comm f d), (mul_comm e d).
    now rewrite !sub_diag_finite. }
  assert (Z : is_zero (a * 0 - b * 0 + c * 0) = true).
  { apply zero_add_zero; [apply zero_sub_zero |]; now apply mul_zero_r_finite. }
  assert (I : Matrix3.inverse (Matrix3.mk_rows (Vector3.mk a b c) (Vector3.mk d e f)
                                 (Vector3.mk d e f)) =
              Throw (runtime_error "Matrix is non-invertible")).
  { unfold Matrix3.inverse. rewrite D. cbn [bind].
    now rewrite (zero_below_threshold _ Z). }
  split; [eauto |]. split; [exact I |].
  unfold Isometry.inverse. cbn [Isometry.mk Isometry.rotation_].
  now rewrite I.
Qed.

Lemma equal_rows_not_invertible_witness :
  (exists d, Matrix3.det (Matrix3.mk 1 2 3 4 5 6 4 5 6) = Ok d /\ is_zero d = true) /\
  Matrix3.inverse (Matrix3.mk 1 2 3 4 5 6 4 5 6) =
    Throw (runtime_error "Matrix is non-invertible") /\
  Isometry.inverse (Isometry.mk (Vector3.mk 7 8 9) (Matrix3.mk 1 2 3 4 5 6 4 5 6)) =
    Throw (runtime_error "Matrix is non-invertible").
Proof.
  apply (equal_rows_not_invertible (Vector3.mk 7 8 9) (Vector3.mk 1 2 3) (Vector3.mk 4 5 6));
    vm_compute; reflexivity.
Defined.

Lemma sub_finite_r (x y : float) : is_finite (x - y) = true -> is_finite y = true.
Proof.
  intros H. destruct (is_finite y) eqn:E; [reflexivity |].
  now rewrite (sub_not_finite_r x y E) in H.
Qed.

(** ** Cancellation *)

(** Subtracting a vector with finite components from itself gives exactly
    the zero vector, and adding the zero vector to it gives a vector that
    [operator==] equates with it. *)
Theorem zero_vector_laws (v : Vector3) :
  Vector3.finite v = true ->
  Vector3.sub v v = Vector3.kZero /\
  Vector3.eqb (Vector3.add v Vector3.kZero) v = true /\
  Vector3.eqb (Vector3.add Vector3.kZero v) v = true.
Proof.
  intros F. pose proof F as G. unfold Vector3.finite in G.
  apply andb_prop in G as [G Fz]. apply andb_prop in G as [Fx Fy].
  split; [| split].
  - unfold Vector3.sub, Vector3.sub_assign. now rewrite !sub_diag_finite.
  - apply eqz_vector; try exact F; cbn; now apply add_zero_r_eqz.
  - apply eqz_vector; try exact F; cbn; now apply add_zero_l_eqz.
Qed.

Lemma zero_vector_laws_witness :
  Vector3.sub (Vector3.mk 1 (-2) 0) (Vector3.mk 1 (-2) 0) = Vector3.kZero /\
  Vector3.eqb (Vector3.add (Vector3.mk 1 (-2) 0) Vector3.kZero) (Vector3.mk 1 (-2) 0) = true /\
  Vector3.eqb (Vector3.add Vector3.kZero (Vector3.mk 1 (-2) 0)) (Vector3.mk 1 (-2) 0) = true.
Proof.
  apply (zero_vector_laws (Vector3.mk 1 (-2) 0)). vm_compute; reflexivity.
Defined.

(** The cross product of a vector with itself is exactly the zero vector
    whenever its components are finite (they are NaNs when a product of two
    components of the vector overflows). *)
Theorem cross_with_itself (v : Vector3) :
  Vector3.finite (Vector3.cross v v) = true -> Vector3.cross v v = Vector3.kZero.
Proof.
  destruct v as [a b c]. unfold Vector3.finite, Vector3.cross.
  cbn [Vector3.x Vector3.y Vector3.z]. intros H.
  apply andb_prop in H as [H Fz]. apply andb_prop in H as [Fx Fy].
  apply sub_finite_r in Fx, Fy, Fz.
  rewrite (mul_comm b c), (mul_comm c a), (mul_comm a b).
  now rewrite !sub_diag_finite.
Qed.

Lemma cross_with_itself_witness :
  Vector3.cross (Vector3.mk 1 2 3) (Vector3.mk 1 2 3) = Vector3.kZero.
Proof.
  apply (cross_with_itself (Vector3.mk 1 2 3)). vm_compute; reflexivity.
Defined.

(** ** Division by zero *)

(** Dividing a vector by a scalar zero does not throw: every component of
    the quotient is an infinity or a NaN, and [operator==] tells the quotient
    apart from every vector, itself included. *)
Theorem division_by_zero (v u : Vector3) (k : float) :
  is_zero k = true ->
  is_finite (Vector3.x (Vector3.div_scalar v k)) = false /\
  is_finite (Vector3.y (Vector3.div_scalar v k)) = false /\
  is_finite (Vector3.z (Vector3.div_scalar v k)) = false /\
  Vector3.eqb (Vector3.div_scalar v k) u = false /\
  Vector3.neqb (Vector3.div_scalar v k) (Vector3.div_scalar v k) = true.
Proof.
  intros Hk.
  assert (E : forall w, Vector3.eqb (Vector3.div_scalar v k) w = false).
  { intros w. unfold Vector3.eqb, Vector3.div_scalar, Vector3.div_assign_scalar.
    cbn [Vector3.x Vector3.y Vector3.z].
    rewrite (not_finite_not_close (Vector3.x v / k - Vector3.x w)); [reflexivity |].
    now apply sub_not_finite_l, div_zero_not_finite. }
  unfold Vector3.neqb. rewrite !E.
  unfold Vector3.div_scalar, Vector3.div_assign_scalar. cbn [Vector3.x Vector3.y Vector3.z].
  repeat split; now apply div_zero_not_finite.
Qed.

Lemma division_by_zero_witness :
  is_finite (Vector3.x (Vector3.div_scalar (Vector3.mk 1 0 (-1)) 0)) = false /\
  is_finite (Vector3.y (Vector3.div_scalar (Vector3.mk 1 0 (-1)) 0)) = false /\
  is_finite (Vector3.z (Vector3.div_scalar (Vector3.mk 1 0 (-1)) 0)) = false /\
  Vector3.eqb (Vector3.div_scalar (Vector3.mk 1 0 (-1)) 0) (Vector3.mk 1 0 (-1)) = false /\
  Vector3.neqb (Vector3.div_scalar (Vector3.mk 1 0 (-1)) 0)
               (Vector3.div_scalar (Vector3.mk 1 0 (-1)) 0) = true.
Proof.
  apply (division_by_zero (Vector3.mk 1 0 (-1)) (Vector3.mk 1 0 (-1)) 0). reflexivity.
Defined.
